(** * SendGIF.send_gif (pyrogram/client/methods/messages/media/send_gif.py)

    A shallow embedding of [SendGIF.send_gif]: the three-way resolution of
    the [gif] argument into an input-media descriptor, and the
    [while True] loop that sends it, re-uploads a missing file part, and
    returns the parsed message of the first new-message update.

    Python values the method only passes along (peers, reply markups,
    styled captions, raw messages, parsed messages, callbacks) are kept
    opaque: one type [Obj] stands for them.  Every method of [self] and
    of [utils] the body calls is a field of the record [Client]; its
    answer may depend on everything that was called before, so it takes
    the history of calls as an argument. *)

From stdpp Require Import gmap strings list pretty.
From Stdlib Require Import Strings.Ascii Strings.Byte ZArith Lia.

Local Open Scope Z_scope.

(** ** Exceptions and results *)

(** The exceptions the body names, and [OtherError] for any other
    exception a collaborator may raise. *)
Inductive exn : Type :=
  | FileIdInvalid (x : option string)   (* pyrogram.api.errors.FileIdInvalid *)
  | FilePartMissing (x : Z)             (* pyrogram.api.errors.FilePartMissing *)
  | AssertionError
  | BinasciiError                       (* binascii.Error *)
  | StructError                         (* struct.error *)
  | AttributeError (msg : string)
  | OtherError (name : string).

Inductive result (A : Type) : Type :=
  | Ok (a : A)
  | Raise (e : exn).
Arguments Ok {A} a.
Arguments Raise {A} e.

Definition is_FilePartMissing (e : exn) : bool :=
  match e with FilePartMissing _ => true | _ => false end.

(** ** The standard-library functions the body uses *)

(** [struct.unpack] for the little-endian standard-size formats made of
    [i] (int32) and [q] (int64). *)
Module Struct.

Inductive code : Type := int32 | int64.

Definition size (c : code) : nat :=
  match c with int32 => 4%nat | int64 => 8%nat end.

Definition code_of (a : ascii) : option code :=
  if Ascii.eqb a "i" then Some int32
  else if Ascii.eqb a "q" then Some int64
  else None.

Fixpoint codes (s : string) : option (list code) :=
  match s with
  | EmptyString => Some []
  | String a r =>
      match code_of a, codes r with
      | Some c, Some cs => Some (c :: cs)
      | _, _ => None
      end
  end.

(** A format is the byte-order mark ["<"] followed by the codes. *)
Definition parse_fmt (fmt : string) : option (list code) :=
  match fmt with
  | String a r => if Ascii.eqb a "<" then codes r else None
  | EmptyString => None
  end.

Definition calcsize (cs : list code) : nat :=
  foldr (λ c n, (size c + n)%nat) 0%nat cs.

Definition le_unsigned (bs : list byte) : Z :=
  foldr (λ b acc, Z.of_N (Byte.to_N b) + 256 * acc) 0 bs.

(** Two's complement on [8 * length bs] bits. *)
Definition le_signed (bs : list byte) : Z :=
  let u := le_unsigned bs in
  let w := 8 * Z.of_nat (length bs) in
  if u <? 2 ^ (w - 1) then u else u - 2 ^ w.

Fixpoint fields (cs : list code) (data : list byte) : list Z :=
  match cs with
  | [] => []
  | c :: cs' => le_signed (take (size c) data) :: fields cs' (drop (size c) data)
  end.

(** [struct.unpack(fmt, data)]: the buffer must have exactly the size
    the format requires, else [struct.error]. *)
Definition unpack (fmt : string) (data : list byte) : result (list Z) :=
  match parse_fmt fmt with
  | None => Raise StructError
  | Some cs =>
      if decide (length data = calcsize cs) then Ok (fields cs data)
      else Raise StructError
  end.

(** The inverse direction, [struct.pack] of one field, used to write
    identifiers down in examples. *)
Fixpoint le_bytes (n : nat) (u : Z) : list byte :=
  match n with
  | O => []
  | S n' =>
      match Byte.of_N (Z.to_N (u mod 256)) with
      | Some b => b :: le_bytes n' (u / 256)
      | None => []
      end
  end.

Definition pack1 (c : code) (z : Z) : list byte :=
  le_bytes (size c) (z mod 2 ^ (8 * Z.of_nat (size c))).

Fixpoint pack (cs : list code) (zs : list Z) : list byte :=
  match cs, zs with
  | c :: cs', z :: zs' => pack1 c z ++ pack cs' zs'
  | _, _ => []
  end.

End Struct.

(** [str.startswith]. *)
Definition startswith (s p : string) : bool := String.prefix p s.

(** [str.lower] on ASCII letters; the body only compares the result
    with ["html"]. *)
Definition lower_ascii (a : ascii) : ascii :=
  let n := Ascii.nat_of_ascii a in
  if decide (65 ≤ n ≤ 90)%nat then Ascii.ascii_of_nat (n + 32) else a.

Fixpoint lower (s : string) : string :=
  match s with
  | EmptyString => EmptyString
  | String a r => String (lower_ascii a) (lower r)
  end.

(** [str.rfind] of one character: the highest index, or -1. *)
Fixpoint rfind_from (c : ascii) (s : string) (i last : Z) : Z :=
  match s with
  | EmptyString => last
  | String a r => rfind_from c r (i + 1) (if Ascii.eqb a c then i else last)
  end.

Definition rfind (c : ascii) (s : string) : Z := rfind_from c s 0 (-1).

Fixpoint drop_string (n : nat) (s : string) : string :=
  match n, s with
  | S n', String _ r => drop_string n' r
  | _, _ => s
  end.

(** [posixpath.basename]: [i = p.rfind('/') + 1; return p[i:]]. *)
Definition basename (p : string) : string :=
  let i := rfind "/" p + 1 in
  drop_string (Z.to_nat i) p.

(** [mimetypes.types_map], the entries for the video and image
    containers; [types_map[ext]] raises [KeyError] for a missing key. *)
Definition types_map : gmap string string :=
  list_to_map
    [ (".gif", "image/gif"); (".mp4", "video/mp4"); (".mov", "video/quicktime");
      (".webm", "video/webm"); (".png", "image/png"); (".jpg", "image/jpeg") ]%string.

Definition types_map_getitem (ext : string) : result string :=
  match types_map !! ext with
  | Some v => Ok v
  | None => Raise (OtherError "KeyError")
  end.

(** [str(n)] for an int, as [str.format] prints it. *)
Definition str_int (n : Z) : string := pretty n.

(** ** Data: the TL types the body builds and reads *)

Section SendGIF.

(** The Python objects the method passes along without looking inside. *)
Context {Obj : Type}.

(** [chat_id: int or str]. *)
Inductive ChatId : Type :=
  | ChatInt (n : Z)
  | ChatStr (s : string).

(** Modelled from the spec: the value [save_file] returns is not under
    src/; the spec gives the handle as
    [UploadedFileHandle { file_id, is_big, part_count }].  The body
    reads its identifier only ([file.id]). *)
Record InputFile : Type := {
  file_id : Z;
  is_big : bool;
  part_count : Z
}.

Inductive DocumentAttribute : Type :=
  | DocumentAttributeVideo (supports_streaming : bool) (duration w h : Z)
  | DocumentAttributeFilename (file_name : string)
  | DocumentAttributeAnimated.

Record InputDocument : Type := {
  doc_id : Z;
  access_hash : Z
}.

Inductive InputMedia : Type :=
  | InputMediaUploadedDocument
      (mime_type : string) (file : InputFile) (thumb : option InputFile)
      (attributes : list DocumentAttribute)
  | InputMediaDocumentExternal (url : string)
  | InputMediaDocument (id : InputDocument).

(** [functions.messages.SendMedia]; [styled] is the dictionary
    [style.parse(caption)] returns, passed as keyword arguments. *)
Record SendMedia : Type := {
  peer : Obj;
  media : InputMedia;
  silent : option bool;
  reply_to_msg_id : option Z;
  random_id : Z;
  reply_markup_written : option Obj;
  styled : Obj
}.

Inductive Update : Type :=
  | UpdateNewMessage (message : Obj) (pts pts_count : Z)
  | UpdateNewChannelMessage (message : Obj) (pts pts_count : Z)
  | UpdateOther (u : Obj).

(** A user or a chat of the response: the body reads [i.id]. *)
Record Entity : Type := {
  ent_id : Z;
  ent_value : Obj
}.

(** What [self.send] returns on success: [r.updates], [r.users],
    [r.chats]. *)
Record Updates : Type := {
  updates : list Update;
  users : list Entity;
  chats : list Entity
}.

(** ** Calls to the collaborators *)

(** One call of a method of [self] or of [utils], with its arguments;
    [RndId] also keeps the value the call returned. *)
Inductive event : Type :=
  | SaveFile (path : string) (fid : option Z) (file_part : Z)
             (progress : option Obj) (progress_args : list Obj)
  | ResolvePeer (chat : ChatId)
  | RndId (value : Z)
  | MarkupWrite (markup : Obj)
  | StyleParse (html : bool) (caption : string)
  | Send (request : SendMedia)
  | ParseMessages (message : Obj) (users_by_id chats_by_id : gmap Z Entity).

Definition History : Type := list event.

(** The client [self] and the modules the body calls into.  None of
    them is under src/: each is a parameter.  A method with effects
    answers from the history of the calls made before it. *)
Record Client : Type := {
  (* os.path.exists *)
  path_exists : string → bool;
  (* utils.decode *)
  decode : string → result (list byte);
  (* BaseClient.MEDIA_TYPE_ID *)
  MEDIA_TYPE_ID : gmap Z string;
  (* self.save_file(path, file_id=None, file_part=0, progress=None, progress_args=()) *)
  save_file : History → string → option Z → Z → option Obj → list Obj → result InputFile;
  (* self.resolve_peer(chat_id) *)
  resolve_peer : History → ChatId → result Obj;
  (* self.rnd_id() *)
  rnd_id : History → Z;
  (* reply_markup.write() *)
  markup_write : History → Obj → result Obj;
  (* self.html.parse(caption) when the flag is true, self.markdown.parse(caption) otherwise *)
  style_parse : History → bool → string → result Obj;
  (* self.send(request) *)
  send : History → SendMedia → result Updates;
  (* utils.parse_messages(self, message, users, chats) *)
  parse_messages : History → Obj → gmap Z Entity → gmap Z Entity → result Obj
}.

(** The parameters of [send_gif], with the defaults of the signature
    written as [None], [0], [""] and [[]] by the caller. *)
Record Args : Type := {
  chat_id : ChatId;
  gif : string;
  caption : string;
  parse_mode : string;
  duration : Z;
  width : Z;
  height : Z;
  thumb : option string;
  disable_notification : option bool;
  reply_to_message_id : option Z;
  reply_markup : option Obj;
  progress : option Obj;
  progress_args : list Obj
}.

(** ** The monad of the body: a history of calls and an exception *)

Definition M (A : Type) : Type := History → result A * History.

Definition mret {A} (a : A) : M A := λ h, (Ok a, h).

Definition mraise {A} (e : exn) : M A := λ h, (Raise e, h).

Definition mbind {A B} (m : M A) (k : A → M B) : M B :=
  λ h, match m h with
       | (Ok a, h') => k a h'
       | (Raise e, h') => (Raise e, h')
       end.

Definition lift {A} (r : result A) : M A := λ h, (r, h).

(** A call: the collaborator answers from the history so far, and the
    call is appended to it. *)
Definition call {A} (ev : event) (answer : History → result A) : M A :=
  λ h, (answer h, h ++ [ev]).

Notation "x <- m ;; k" := (mbind m (λ x, k))
  (at level 100, m at next level, right associativity).

(** ** The body *)

Variable self : Client.

Definition do_save_file (path : string) (fid : option Z) (part : Z)
    (prog : option Obj) (pargs : list Obj) : M InputFile :=
  call (SaveFile path fid part prog pargs)
       (λ h, save_file self h path fid part prog pargs).

Definition do_rnd_id : M Z :=
  λ h, let v := rnd_id self h in (Ok v, h ++ [RndId v]).

(** The exceptions of the clause
    [except (AssertionError, binascii.Error, struct.error)]. *)
Definition caught (e : exn) : bool :=
  match e with
  | AssertionError | BinasciiError | StructError => true
  | _ => false
  end.

(** The [try] block of the third branch, and its [except] clause. *)
Definition unpack_file_id (s : string) : result (list Z) :=
  let body :=
    match decode self s with
    | Ok decoded =>
        let fmt := if decide (24 < length decoded)%nat
                   then "<iiqqqqi"%string else "<iiqq"%string in
        Struct.unpack fmt decoded
    | Raise e => Raise e
    end in
  match body with
  | Ok unpacked => Ok unpacked
  | Raise e => if caught e then Raise (FileIdInvalid None) else Raise e
  end.

(** [unpacked[i]]. *)
Definition getitem (t : list Z) (i : nat) : result Z :=
  match t !! i with
  | Some v => Ok v
  | None => Raise (OtherError "IndexError")
  end.

(** Truth value of a string: [if media_type:]. *)
Definition truthy (s : string) : bool := negb (String.eqb s "").

(** The [else] clause of that [try]. *)
Definition media_of_unpacked (unpacked : list Z) : result InputMedia :=
  match getitem unpacked 0 with
  | Raise e => Raise e
  | Ok kind =>
      if negb (kind =? 10) then
        match MEDIA_TYPE_ID self !! kind with
        | Some media_type =>
            if truthy media_type
            then Raise (FileIdInvalid (Some ("The file_id belongs to a " +:+ media_type)))
            else Raise (FileIdInvalid (Some ("Unknown media type: " +:+ str_int kind)))
        | None =>
            Raise (FileIdInvalid (Some ("Unknown media type: " +:+ str_int kind)))
        end
      else
        match getitem unpacked 2, getitem unpacked 3 with
        | Ok i, Ok a =>
            Ok (InputMediaDocument {| doc_id := i; access_hash := a |})
        | Raise e, _ => Raise e
        | _, Raise e => Raise e
        end
  end.

Definition resolve_file_id (s : string) : result InputMedia :=
  match unpack_file_id s with
  | Ok unpacked => media_of_unpacked unpacked
  | Raise e => Raise e
  end.

(** Lines 121-167: the descriptor and the value of [file]. *)
Definition resolve (a : Args) : M (InputMedia * option InputFile) :=
  if path_exists self (gif a) then
    th <- match thumb a with
          | None => mret None
          | Some t => f <- do_save_file t None 0 None [] ;; mret (Some f)
          end ;;
    file <- do_save_file (gif a) None 0 (progress a) (progress_args a) ;;
    mime <- lift (types_map_getitem ".mp4") ;;
    mret (InputMediaUploadedDocument mime file th
            [ DocumentAttributeVideo true (duration a) (width a) (height a);
              DocumentAttributeFilename (basename (gif a));
              DocumentAttributeAnimated ],
          Some file)
  else if startswith (gif a) "http" then
    mret (InputMediaDocumentExternal (gif a), None)
  else
    m <- lift (resolve_file_id (gif a)) ;;
    mret (m, None).

(** [x or None] for an optional boolean. *)
Definition or_None (x : option bool) : option bool :=
  match x with
  | Some true => Some true
  | _ => None
  end.

(** [parse_mode.lower() == "html"] selects [self.html]. *)
Definition is_html (a : Args) : bool := String.eqb (lower (parse_mode a)) "html".

(** The [try] block of the loop: the arguments of [SendMedia] are
    evaluated left to right, then the request is sent. *)
Definition attempt (a : Args) (m : InputMedia) : M Updates :=
  p <- call (ResolvePeer (chat_id a)) (λ h, resolve_peer self h (chat_id a)) ;;
  rid <- do_rnd_id ;;
  rm <- match reply_markup a with
        | Some k => b <- call (MarkupWrite k) (λ h, markup_write self h k) ;; mret (Some b)
        | None => mret None
        end ;;
  st <- call (StyleParse (is_html a) (caption a))
             (λ h, style_parse self h (is_html a) (caption a)) ;;
  let request :=
    {| peer := p; media := m; silent := or_None (disable_notification a);
       reply_to_msg_id := reply_to_message_id a; random_id := rid;
       reply_markup_written := rm; styled := st |} in
  call (Send request) (λ h, send self h request).

Definition new_message (u : Update) : option Obj :=
  match u with
  | UpdateNewMessage m _ _ | UpdateNewChannelMessage m _ _ => Some m
  | UpdateOther _ => None
  end.

(** The [for] loop over [r.updates]: the message of the first update
    that passes the [isinstance] test, if there is one. *)
Fixpoint scan_updates (us : list Update) : option Obj :=
  match us with
  | [] => None
  | u :: rest =>
      match new_message u with
      | Some m => Some m
      | None => scan_updates rest
      end
  end.

(** [{i.id: i for i in l}]: a later entry replaces an earlier one. *)
Definition by_id (l : list Entity) : gmap Z Entity :=
  foldl (λ m e, <[ent_id e := e]> m) ∅ l.

(** The [except FilePartMissing as e] clause:
    [self.save_file(gif, file_id=file.id, file_part=e.x)]. *)
Definition recover (a : Args) (file : option InputFile) (x : Z) : M InputFile :=
  match file with
  | None => mraise (AttributeError "'NoneType' object has no attribute 'id'")
  | Some f => do_save_file (gif a) (Some (file_id f)) x None []
  end.

(** Lines 169-191.  [fuel] bounds the number of rounds of
    [while True]; [None] says the loop is still running when the fuel
    is spent. *)
Fixpoint send_loop (fuel : nat) (a : Args) (m : InputMedia)
    (file : option InputFile) (h : History) : option (result Obj) * History :=
  match fuel with
  | O => (None, h)
  | S fuel' =>
      match attempt a m h with
      | (Ok r, h1) =>
          match scan_updates (updates r) with
          | Some msg =>
              let us := by_id (users r) in
              let cs := by_id (chats r) in
              (Some (parse_messages self h1 msg us cs),
               h1 ++ [ParseMessages msg us cs])
          | None => send_loop fuel' a m file h1
          end
      | (Raise (FilePartMissing x), h1) =>
          match recover a file x h1 with
          | (Ok _, h2) => send_loop fuel' a m file h2
          | (Raise e, h2) => (Some (Raise e), h2)
          end
      | (Raise e, h1) => (Some (Raise e), h1)
      end
  end.

Definition send_gif (fuel : nat) (a : Args) : option (result Obj) * History :=
  match resolve a [] with
  | (Ok (m, file), h) => send_loop fuel a m file h
  | (Raise e, h) => (Some (Raise e), h)
  end.

(** ** Reading a history *)

Definition sends (h : History) : list SendMedia :=
  omap (λ ev, match ev with Send r => Some r | _ => None end) h.

Definition rnd_ids (h : History) : list Z :=
  omap (λ ev, match ev with RndId v => Some v | _ => None end) h.

(** The calls of [save_file], as (path, file_id, file_part). *)
Definition uploads (h : History) : list (string * option Z * Z) :=
  omap (λ ev, match ev with
              | SaveFile p i k _ _ => Some (p, i, k)
              | _ => None
              end) h.

End SendGIF.

(** * Properties *)

(** ** The binary layouts *)

(** The signed little-endian integer in bytes [off .. off + len - 1]. *)
Definition field (off len : nat) (d : list byte) : Z :=
  Struct.le_signed (take len (drop off d)).

Definition short_layout (d : list byte) : list Z :=
  [ field 0 4 d; field 4 4 d; field 8 8 d; field 16 8 d ].

Definition long_layout (d : list byte) : list Z :=
  [ field 0 4 d; field 4 4 d; field 8 8 d; field 16 8 d;
    field 24 8 d; field 32 8 d; field 40 4 d ].


(** ** A sample client, for the examples

    Opaque objects are strings.  [save_file] always returns the same
    handle, [rnd_id] counts its calls (no value comes twice), and
    [send] answers its [k]-th call with the [k]-th entry of a script. *)

Definition short_codes : list Struct.code :=
  [ Struct.int32; Struct.int32; Struct.int64; Struct.int64 ].

Definition long_codes : list Struct.code :=
  [ Struct.int32; Struct.int32; Struct.int64; Struct.int64;
    Struct.int64; Struct.int64; Struct.int32 ].

Definition sample_ids : gmap string (list byte) :=
  list_to_map
    [ ("short-gif", Struct.pack short_codes [10; 2; 11; 12]);
      ("long-gif", Struct.pack long_codes [10; 2; 1; 2; 3; 4; 0]);
      ("short-video", Struct.pack short_codes [2; 2; 11; 12]);
      ("short-unknown", Struct.pack short_codes [99; 2; 11; 12]);
      ("cut-short", take 20 (Struct.pack short_codes [10; 2; 11; 12]));
      ("cut-long", take 30 (Struct.pack long_codes [10; 2; 1; 2; 3; 4; 0])) ]%string.

Definition sample_file : InputFile :=
  {| file_id := 77; is_big := false; part_count := 4 |}.

(** Modelled from the spec: [BaseClient.MEDIA_TYPE_ID] is not under
    src/; the spec says that code 2 is mapped to "video" and that the
    document code 10 is the one this method accepts. *)
Definition sample_media_types : gmap Z string :=
  {[ 2 := "video"%string ]}.

(** The answer of [send] to its [k]-th call (counting from 0); once the
    script is used up, an RPC error. *)
Definition sample_script (script : list (result (@Updates string))) (k : nat)
    : result (@Updates string) :=
  default (Raise (OtherError "RPCError")) (script !! k).

Definition sample_client (files : list string) (script : list (result (@Updates string)))
    : @Client string :=
  {| path_exists p := bool_decide (p ∈ files);
     decode s := match sample_ids !! s with
                 | Some d => Ok d
                 | None => Raise BinasciiError
                 end;
     MEDIA_TYPE_ID := sample_media_types;
     save_file _ _ _ _ _ _ := Ok sample_file;
     resolve_peer _ _ := Ok "peer"%string;
     rnd_id h := 1 + Z.of_nat (length (rnd_ids h));
     markup_write _ k := Ok k;
     style_parse _ _ c := Ok c;
     send h _ := sample_script script (length (sends h));
     parse_messages _ msg _ _ := Ok msg |}.

Definition sample_args (g : string) : @Args string :=
  {| chat_id := ChatStr "me"; gif := g; caption := ""; parse_mode := "";
     duration := 5; width := 100; height := 100; thumb := None;
     disable_notification := None; reply_to_message_id := None;
     reply_markup := None; progress := None; progress_args := [] |}.

(** A response with a new-message update, and one without. *)
Definition sample_sent : @Updates string :=
  {| updates := [ UpdateOther "read"%string; UpdateNewMessage "m"%string 1 1 ];
     users := []; chats := [] |}.

Definition sample_no_message : @Updates string :=
  {| updates := [ UpdateOther "read"%string ]; users := []; chats := [] |}.

(** The same call with another value of [disable_notification]. *)
Definition with_disable_notification {Obj : Type} (v : option bool) (a : @Args Obj)
    : @Args Obj :=
  {| chat_id := chat_id a; gif := gif a; caption := caption a;
     parse_mode := parse_mode a; duration := duration a; width := width a;
     height := height a; thumb := thumb a; disable_notification := v;
     reply_to_message_id := reply_to_message_id a; reply_markup := reply_markup a;
     progress := progress a; progress_args := progress_args a |}.

(** What one [try] block adds to the history. *)
Inductive attempt_events {Obj : Type} (self : @Client Obj)
    (a : @Args Obj) (m : InputMedia) (h : @History Obj)
    : result Updates → list event → Prop :=
  | attempt_stopped (e : exn) (evs : list event) :
      sends evs = [] → uploads evs = [] → (length (rnd_ids evs) ≤ 1)%nat →
      attempt_events self a m h (Raise e) evs
  | attempt_sent (req : SendMedia) (evs : list event) :
      sends evs = [] → uploads evs = [] → rnd_ids evs = [random_id req] →
      media req = m →
      silent req = or_None (disable_notification a) →
      reply_to_msg_id req = reply_to_message_id a →
      attempt_events self a m h (send self (h ++ evs) req) (evs ++ [Send req]).


(** Reading a history for the correlation identifiers.  [pending] is the
    value of the latest [rnd_id] call that no send call has carried
    yet; a send call must carry it, and uses it up. *)
Definition id_step {Obj : Type} (pending : option Z) (ev : @event Obj)
    : option (option Z) :=
  match ev with
  | RndId v => Some (Some v)
  | Send req =>
      match pending with
      | Some v => if decide (random_id req = v) then Some None else None
      | None => None
      end
  | _ => Some pending
  end.

Fixpoint id_run {Obj : Type} (pending : option Z) (h : @History Obj)
    : option (option Z) :=
  match h with
  | [] => Some pending
  | ev :: h' =>
      match id_step pending ev with
      | Some p => id_run p h'
      | None => None
      end
  end.

(** Every send call of the history carries the value returned by a call
    of [rnd_id] made after the send call before it. *)
Definition drawn_per_attempt {Obj : Type} (h : @History Obj) : bool :=
  match id_run None h with
  | Some _ => true
  | None => false
  end.


(** ** More readings of a history, and of one [try] block *)

Definition peers {Obj : Type} (h : @History Obj) : list ChatId :=
  omap (λ ev, match ev with ResolvePeer c => Some c | _ => None end) h.

(** The calls of [style.parse], as (html flag, caption). *)
Definition parses {Obj : Type} (h : @History Obj) : list (bool * string) :=
  omap (λ ev, match ev with StyleParse b c => Some (b, c) | _ => None end) h.

Definition writes {Obj : Type} (h : @History Obj) : list Obj :=
  omap (λ ev, match ev with MarkupWrite k => Some k | _ => None end) h.

(** The first two calls of a [try] block whose peer was resolved. *)
Definition drawn {Obj : Type} (self : @Client Obj) (a : @Args Obj) (h : @History Obj)
    : list (@event Obj) :=
  [ ResolvePeer (chat_id a); RndId (rnd_id self (h ++ [ResolvePeer (chat_id a)])) ].

(** The value of [reply_markup.write() if reply_markup else None] and
    the call it makes, when it does not raise. *)
Definition written {Obj : Type} (self : @Client Obj) (a : @Args Obj) (h : @History Obj)
    (rm : option Obj) (ws : list (@event Obj)) : Prop :=
  match reply_markup a with
  | None => rm = None ∧ ws = []
  | Some k => ∃ b, markup_write self h k = Ok b ∧ rm = Some b ∧ ws = [MarkupWrite k]
  end.

Definition request_of {Obj : Type} (self : @Client Obj) (a : @Args Obj) (m : InputMedia)
    (h : @History Obj) (p : Obj) (rm : option Obj) (st : Obj) : @SendMedia Obj :=
  {| peer := p; media := m; silent := or_None (disable_notification a);
     reply_to_msg_id := reply_to_message_id a;
     random_id := rnd_id self (h ++ [ResolvePeer (chat_id a)]);
     reply_markup_written := rm; styled := st |}.

(** The four ways a [try] block can go, with the calls it makes in
    each and its outcome. *)
Inductive attempt_trace {Obj : Type} (self : @Client Obj) (a : @Args Obj)
    (m : InputMedia) (h : @History Obj)
    : result (@Updates Obj) → list (@event Obj) → Prop :=
  | trace_peer_raised (e : exn) :
      resolve_peer self h (chat_id a) = Raise e →
      attempt_trace self a m h (Raise e) [ResolvePeer (chat_id a)]
  | trace_write_raised (p k : Obj) (e : exn) :
      resolve_peer self h (chat_id a) = Ok p →
      reply_markup a = Some k →
      markup_write self (h ++ drawn self a h) k = Raise e →
      attempt_trace self a m h (Raise e) (drawn self a h ++ [MarkupWrite k])
  | trace_parse_raised (p : Obj) (rm : option Obj) (ws : list event) (e : exn) :
      resolve_peer self h (chat_id a) = Ok p →
      written self a (h ++ drawn self a h) rm ws →
      style_parse self (h ++ drawn self a h ++ ws) (is_html a) (caption a) = Raise e →
      attempt_trace self a m h (Raise e)
        (drawn self a h ++ ws ++ [StyleParse (is_html a) (caption a)])
  | trace_sent (p : Obj) (rm : option Obj) (ws : list event) (st : Obj) :
      resolve_peer self h (chat_id a) = Ok p →
      written self a (h ++ drawn self a h) rm ws →
      style_parse self (h ++ drawn self a h ++ ws) (is_html a) (caption a) = Ok st →
      attempt_trace self a m h
        (send self (h ++ drawn self a h ++ ws ++ [StyleParse (is_html a) (caption a)])
           (request_of self a m h p rm st))
        (drawn self a h ++ ws ++ [StyleParse (is_html a) (caption a)]
           ++ [Send (request_of self a m h p rm st)]).

(** Sample clients whose [utils.decode] raises a given exception, and
    whose [save_file] fails on one path. *)
Definition sample_client_decode_raises (e : exn) : @Client string :=
  {| path_exists _ := false;
     decode _ := Raise e;
     MEDIA_TYPE_ID := sample_media_types;
     save_file _ _ _ _ _ _ := Ok sample_file;
     resolve_peer _ _ := Ok "peer"%string;
     rnd_id h := 1 + Z.of_nat (length (rnd_ids h));
     markup_write _ k := Ok k;
     style_parse _ _ c := Ok c;
     send _ _ := Ok sample_sent;
     parse_messages _ msg _ _ := Ok msg |}.

Definition sample_client_upload_raises (files : list string) (bad : string)
    : @Client string :=
  {| path_exists p := bool_decide (p ∈ files);
     decode _ := Raise BinasciiError;
     MEDIA_TYPE_ID := sample_media_types;
     save_file _ p _ _ _ _ :=
       if String.eqb p bad then Raise (OtherError "OSError") else Ok sample_file;
     resolve_peer _ _ := Ok "peer"%string;
     rnd_id h := 1 + Z.of_nat (length (rnd_ids h));
     markup_write _ k := Ok k;
     style_parse _ _ c := Ok c;
     send _ _ := Ok sample_sent;
     parse_messages _ msg _ _ := Ok msg |}.

Definition sample_args_with_thumb (g t : string) : @Args string :=
  {| chat_id := ChatStr "me"; gif := g; caption := ""; parse_mode := "";
     duration := 5; width := 100; height := 100; thumb := Some t;
     disable_notification := None; reply_to_message_id := None;
     reply_markup := None; progress := Some "callback"%string;
     progress_args := [ "extra"%string ] |}.

(** A call with a caption, a parse mode, a reply target and a reply
    markup. *)
Definition sample_args_full (g mode : string) : @Args string :=
  {| chat_id := ChatInt 42; gif := g; caption := "<b>hi</b>"; parse_mode := mode;
     duration := 5; width := 100; height := 100; thumb := None;
     disable_notification := Some true; reply_to_message_id := Some 7;
     reply_markup := Some "keyboard"%string; progress := None;
     progress_args := [] |}.

(** The values a field of a code can hold: a signed integer on
    [8 * size c] bits. *)
Definition fits (c : Struct.code) (z : Z) : Prop :=
  - 2 ^ (8 * Z.of_nat (Struct.size c) - 1) ≤ z < 2 ^ (8 * Z.of_nat (Struct.size c) - 1).

(** A sample client whose [save_file] uploads whole files but fails
    with [e] when asked for a single part, and whose [send] always
    reports part 3 missing. *)
Definition sample_client_part_raises (files : list string) (e : exn) : @Client string :=
  {| path_exists p := bool_decide (p ∈ files);
     decode _ := Raise BinasciiError;
     MEDIA_TYPE_ID := sample_media_types;
     save_file _ _ fid _ _ _ :=
       match fid with
       | Some _ => Raise e
       | None => Ok sample_file
       end;
     resolve_peer _ _ := Ok "peer"%string;
     rnd_id h := 1 + Z.of_nat (length (rnd_ids h));
     markup_write _ k := Ok k;
     style_parse _ _ c := Ok c;
     send _ _ := Raise (FilePartMissing 3);
     parse_messages _ msg _ _ := Ok msg |}.

Lemma le_unsigned_bounds (bs : list byte) :
  0 ≤ Struct.le_unsigned bs < 2 ^ (8 * Z.of_nat (length bs)).
Proof.
  induction bs as [|b bs IH]; simpl; [lia|].
  pose proof (Byte.to_N_bounded b) as Hb.
  replace (8 * Z.of_nat (S (length bs))) with (8 + 8 * Z.of_nat (length bs)) by lia.
  rewrite Z.pow_add_r by lia.
  change (2 ^ 8) with 256. lia.
Qed.

(** A field of [n] bytes is a signed [8 * n]-bit integer. *)
Lemma le_signed_bounds (bs : list byte) :
  bs ≠ [] →
  - 2 ^ (8 * Z.of_nat (length bs) - 1) ≤ Struct.le_signed bs
    < 2 ^ (8 * Z.of_nat (length bs) - 1).
Proof.
  intros Hne. unfold Struct.le_signed.
  pose proof (le_unsigned_bounds bs) as Hu.
  assert (0 < length bs)%nat as Hlen by (destruct bs; simpl; [done | lia]).
  set (w := 8 * Z.of_nat (length bs)) in *.
  assert (2 ^ w = 2 * 2 ^ (w - 1)) as Hw.
  { replace w with (1 + (w - 1)) at 1 by lia.
    rewrite Z.pow_add_r by lia. reflexivity. }
  destruct (Z.ltb_spec (Struct.le_unsigned bs) (2 ^ (w - 1))); lia.
Qed.

Lemma unpack_short (d : list byte) :
  length d = 24%nat → Struct.unpack "<iiqq" d = Ok (short_layout d).
Proof.
  intros Hlen. unfold Struct.unpack. simpl.
  rewrite decide_True by done.
  unfold short_layout, field. rewrite !drop_drop. reflexivity.
Qed.

Lemma unpack_long (d : list byte) :
  length d = 44%nat → Struct.unpack "<iiqqqqi" d = Ok (long_layout d).
Proof.
  intros Hlen. unfold Struct.unpack. simpl.
  rewrite decide_True by done.
  unfold long_layout, field. rewrite !drop_drop. reflexivity.
Qed.

Lemma unpack_short_bad (d : list byte) :
  length d ≠ 24%nat → Struct.unpack "<iiqq" d = Raise StructError.
Proof.
  intros Hlen. unfold Struct.unpack. simpl. by rewrite decide_False.
Qed.

Lemma unpack_long_bad (d : list byte) :
  length d ≠ 44%nat → Struct.unpack "<iiqqqqi" d = Raise StructError.
Proof.
  intros Hlen. unfold Struct.unpack. simpl. by rewrite decide_False.
Qed.

(** Known values of [struct.unpack]. *)
Example unpack_int32_values :
  Struct.unpack "<i" [x0a; x00; x00; x00] = Ok [10] ∧
  Struct.unpack "<i" [xfe; xff; xff; xff] = Ok [-2] ∧
  Struct.unpack "<i" [x00; x00; x00; x80] = Ok [-2147483648] ∧
  Struct.unpack "<q" [x01; x00; x00; x00; x00; x00; x00; x80] = Ok [-9223372036854775807] ∧
  Struct.unpack "<i" [x0a; x00; x00] = Raise StructError ∧
  Struct.unpack "<i" [x0a; x00; x00; x00; x00] = Raise StructError.
Proof. repeat split; by vm_compute. Qed.

(** ** The base name of a path *)

Lemma rfind_from_spec (c : ascii) (s : string) (i last : Z) :
  (rfind_from c s i last = last ∧ ∀ x y, s ≠ x +:+ String c y) ∨
  (∃ pre post, s = pre +:+ String c post ∧
               (∀ x y, post ≠ x +:+ String c y) ∧
               rfind_from c s i last = i + Z.of_nat (String.length pre)).
Proof.
  revert i last. induction s as [|a s IH]; intros i last; simpl.
  - left. split; [done|]. intros [|b x] y; discriminate.
  - destruct (IH (i + 1) (if Ascii.eqb a c then i else last))
      as [[Hr Hno]|(pre & post & Hs & Hno & Hr)].
    + destruct (Ascii.eqb_spec a c) as [->|Hne].
      * right. exists ""%string, s. simpl. split; [done|]. split; [done|]. lia.
      * left. split; [done|]. intros [|b x] y Heq; simpl in Heq.
        -- injection Heq as Hac _. done.
        -- injection Heq as _ Hs. by apply (Hno x y).
    + right. exists (String a pre), post. rewrite Hr.
      split; [by rewrite Hs|]. split; [done|].
      change (String.length (String a pre)) with (S (String.length pre)). lia.
Qed.

Lemma drop_string_past (pre post : string) (c : ascii) :
  drop_string (S (String.length pre)) (pre +:+ String c post) = post.
Proof.
  induction pre as [|b pre IH]; simpl; [by destruct post | exact IH].
Qed.

(** [basename p] is what follows the last ['/'] of [p], and all of [p]
    when it has none. *)
Lemma basename_spec (p : string) :
  (basename p = p ∧ ∀ x y, p ≠ x +:+ String "/" y) ∨
  (∃ dir, p = dir +:+ String "/" (basename p) ∧
          ∀ x y, basename p ≠ x +:+ String "/" y).
Proof.
  unfold basename, rfind.
  destruct (rfind_from_spec "/" p 0 (-1))
    as [[Hr Hno]|(pre & post & Hs & Hno & Hr)]; rewrite Hr.
  - left. split; [|done]. simpl. by destruct p.
  - right. exists pre.
    replace (Z.to_nat (0 + Z.of_nat (String.length pre) + 1))
      with (S (String.length pre)) by lia.
    clear Hr. subst p. rewrite drop_string_past. by split.
Qed.

Example basename_values :
  basename "/tmp/clip.mp4" = "clip.mp4"%string ∧
  basename "clip.mp4" = "clip.mp4"%string ∧
  basename "/tmp/dir/" = ""%string ∧
  basename "" = ""%string.
Proof. repeat split; by vm_compute. Qed.

(** ** Resolution of an opaque identifier *)

Section Resolution.

Context {Obj : Type} (self : @Client Obj).

Lemma unpack_file_id_short (s : string) (d : list byte) :
  decode self s = Ok d → length d = 24%nat →
  unpack_file_id self s = Ok (short_layout d).
Proof.
  intros Hd Hlen. unfold unpack_file_id. rewrite Hd.
  rewrite decide_False by lia. by rewrite unpack_short.
Qed.

Lemma unpack_file_id_long (s : string) (d : list byte) :
  decode self s = Ok d → length d = 44%nat →
  unpack_file_id self s = Ok (long_layout d).
Proof.
  intros Hd Hlen. unfold unpack_file_id. rewrite Hd.
  rewrite decide_True by lia. by rewrite unpack_long.
Qed.

Lemma unpack_file_id_bad (s : string) (d : list byte) :
  decode self s = Ok d → length d ≠ 24%nat → length d ≠ 44%nat →
  unpack_file_id self s = Raise (FileIdInvalid None).
Proof.
  intros Hd H24 H44. unfold unpack_file_id. rewrite Hd.
  destruct (decide (24 < length d)%nat).
  - by rewrite unpack_long_bad.
  - by rewrite unpack_short_bad.
Qed.

(** The third branch is reached when the first two tests fail, and it
    calls no collaborator. *)
Lemma resolve_third_branch (a : Args) :
  path_exists self (gif a) = false → startswith (gif a) "http" = false →
  resolve self a [] =
    (match resolve_file_id self (gif a) with
     | Ok m => Ok (m, None)
     | Raise e => Raise e
     end, []).
Proof.
  intros He Hp. unfold resolve. rewrite He, Hp.
  unfold mbind, lift, mret. by destruct (resolve_file_id self (gif a)).
Qed.

Lemma send_gif_resolve_raises (fuel : nat) (a : Args) (e : exn) (h : History) :
  resolve self a [] = (Raise e, h) → send_gif self fuel a = (Some (Raise e), h).
Proof. intros Hr. unfold send_gif. by rewrite Hr. Qed.

Lemma send_gif_bad_length (fuel : nat) (a : Args) (d : list byte) :
  path_exists self (gif a) = false → startswith (gif a) "http" = false →
  decode self (gif a) = Ok d → length d ≠ 24%nat → length d ≠ 44%nat →
  send_gif self fuel a = (Some (Raise (FileIdInvalid None)), []).
Proof.
  intros He Hp Hd H24 H44. apply send_gif_resolve_raises.
  rewrite resolve_third_branch by done.
  unfold resolve_file_id. by rewrite (unpack_file_id_bad _ d).
Qed.

(** C3: once [utils.decode] has returned the bytes, the length selects
    the layout: at most 24 bytes are read as the four little-endian
    fields int32, int32, int64, int64, and more than 24 bytes as the
    seven fields int32, int32, int64 (four times), int32; a length other
    than the 24 or 44 bytes of the selected layout makes [send_gif]
    raise [FileIdInvalid] before any call is made. *)
Theorem unpack_selects_layout_by_length (fuel : nat) (a : Args) (d : list byte) :
  path_exists self (gif a) = false → startswith (gif a) "http" = false →
  decode self (gif a) = Ok d →
  ((length d ≤ 24)%nat →
     (length d = 24%nat → unpack_file_id self (gif a) = Ok (short_layout d)) ∧
     (length d ≠ 24%nat →
        send_gif self fuel a = (Some (Raise (FileIdInvalid None)), []))) ∧
  ((24 < length d)%nat →
     (length d = 44%nat → unpack_file_id self (gif a) = Ok (long_layout d)) ∧
     (length d ≠ 44%nat →
        send_gif self fuel a = (Some (Raise (FileIdInvalid None)), []))).
Proof.
  intros He Hp Hd. split; intros Hlen; split; intros Hx.
  - by apply unpack_file_id_short.
  - apply (send_gif_bad_length _ _ d); [done..|lia].
  - by apply unpack_file_id_long.
  - apply (send_gif_bad_length _ _ d); [done..|lia|done].
Qed.

End Resolution.

(** The long sample identifier is read with the seven-field layout, and
    the two cut ones are refused. *)
Lemma unpack_selects_layout_by_length_witness :
  unpack_file_id (sample_client [] []) "long-gif" = Ok [10; 2; 1; 2; 3; 4; 0] ∧
  send_gif (sample_client [] []) 1 (sample_args "cut-long")
    = (Some (Raise (FileIdInvalid None)), []) ∧
  send_gif (sample_client [] []) 1 (sample_args "cut-short")
    = (Some (Raise (FileIdInvalid None)), []).
Proof.
  pose (c := sample_client [] []).
  destruct (unpack_selects_layout_by_length c 1 (sample_args "long-gif")
              (Struct.pack long_codes [10; 2; 1; 2; 3; 4; 0])
              eq_refl eq_refl eq_refl) as [_ Hlong].
  destruct (unpack_selects_layout_by_length c 1 (sample_args "cut-long")
              (take 30 (Struct.pack long_codes [10; 2; 1; 2; 3; 4; 0]))
              eq_refl eq_refl eq_refl) as [_ Hcut].
  destruct (unpack_selects_layout_by_length c 1 (sample_args "cut-short")
              (take 20 (Struct.pack short_codes [10; 2; 11; 12]))
              eq_refl eq_refl eq_refl) as [Hcut' _].
  split; [|split].
  - apply Hlong; [vm_compute; lia | reflexivity].
  - apply Hcut; [vm_compute; lia | vm_compute; lia].
  - apply Hcut'; [vm_compute; lia | vm_compute; lia].
Defined.

(** ** One round of the loop *)

Section Loop.

Context {Obj : Type} (self : @Client Obj).

Lemma sends_app (h1 h2 : @History Obj) : sends (h1 ++ h2) = sends h1 ++ sends h2.
Proof. apply omap_app. Qed.

Lemma rnd_ids_app (h1 h2 : @History Obj) : rnd_ids (h1 ++ h2) = rnd_ids h1 ++ rnd_ids h2.
Proof. apply omap_app. Qed.

Lemma uploads_app (h1 h2 : @History Obj) : uploads (h1 ++ h2) = uploads h1 ++ uploads h2.
Proof. apply omap_app. Qed.

Lemma attempt_inv (a : @Args Obj) (m : InputMedia) (h : History) :
  ∃ evs, attempt self a m h = (fst (attempt self a m h), h ++ evs) ∧
         attempt_events self a m h (fst (attempt self a m h)) evs.
Proof.
  unfold attempt, mbind, call, do_rnd_id, mret.
  destruct (resolve_peer self h (chat_id a)) as [p|e]; simpl.
  2: { exists [ResolvePeer (chat_id a)]. split; [done|].
       apply attempt_stopped; simpl; [done..|lia]. }
  destruct (reply_markup a) as [k|]; simpl.
  - destruct (markup_write self _ k) as [b|e]; simpl.
    2: { eexists [_; _; _]. rewrite <- !app_assoc. split; [done|].
         apply attempt_stopped; simpl; [done..|lia]. }
    destruct (style_parse self _ (is_html a) (caption a)) as [st|e]; simpl.
    2: { eexists [_; _; _; _]. rewrite <- !app_assoc. split; [done|].
         apply attempt_stopped; simpl; [done..|lia]. }
    eexists (([_; _; _; _]) ++ [Send _]). rewrite <- !app_assoc. split; [done|].
    rewrite !app_assoc.
    match goal with
    | |- attempt_events _ _ _ _ (send _ ?h1 _) _ =>
        replace h1 with (h ++ [ResolvePeer (chat_id a);
                               RndId (rnd_id self (h ++ [ResolvePeer (chat_id a)]));
                               MarkupWrite k;
                               StyleParse (is_html a) (caption a)])
          by (by rewrite <- !app_assoc)
    end.
    by apply attempt_sent.
  - destruct (style_parse self _ (is_html a) (caption a)) as [st|e]; simpl.
    2: { eexists [_; _; _]. rewrite <- !app_assoc. split; [done|].
         apply attempt_stopped; simpl; [done..|lia]. }
    eexists (([_; _; _]) ++ [Send _]). rewrite <- !app_assoc. split; [done|].
    rewrite !app_assoc.
    match goal with
    | |- attempt_events _ _ _ _ (send _ ?h1 _) _ =>
        replace h1 with (h ++ [ResolvePeer (chat_id a);
                               RndId (rnd_id self (h ++ [ResolvePeer (chat_id a)]));
                               StyleParse (is_html a) (caption a)])
          by (by rewrite <- !app_assoc)
    end.
    by apply attempt_sent.
Qed.

Lemma attempt_run (a : @Args Obj) (m : InputMedia) (h : History) :
  ∃ r evs, attempt self a m h = (r, h ++ evs) ∧ attempt_events self a m h r evs.
Proof. destruct (attempt_inv a m h) as (evs & Heq & Hev). eauto. Qed.

Lemma attempt_events_uploads (a : @Args Obj) m h r evs :
  attempt_events self a m h r evs → uploads evs = [].
Proof.
  intros Hev. destruct Hev as [e evs Hs Hu Hr | req evs Hs Hu Hr]; [done|].
  by rewrite uploads_app, Hu.
Qed.

Lemma attempt_events_sends (a : @Args Obj) m h r evs :
  attempt_events self a m h r evs →
  Forall (λ req, media req = m ∧ silent req = or_None (disable_notification a))
         (sends evs).
Proof.
  intros Hev. destruct Hev as [e evs Hs Hu Hr | req evs Hs Hu Hr Hm Hsil Hrep].
  - rewrite Hs. constructor.
  - rewrite sends_app, Hs. simpl. by repeat constructor.
Qed.

(** The loop, read round by round: [P] holds each time the loop is
    entered, [Q] when it is left (and when the fuel runs out). *)
Lemma send_loop_inv (P Q : @History Obj → Prop) (a : Args) (m : InputMedia)
    (file : option InputFile) :
  (∀ h, P h → Q h) →
  (∀ h evs r, P h → attempt_events self a m h r evs → P (h ++ evs)) →
  (∀ h x r h2, P h → recover self a file x h = (r, h2) → P h2) →
  (∀ h msg us cs, P h → P (h ++ [ParseMessages msg us cs])) →
  ∀ fuel h, P h → Q (snd (send_loop self fuel a m file h)).
Proof.
  intros HPQ Hatt Hrec Hparse fuel.
  induction fuel as [|fuel IH]; intros h HP; simpl; [by apply HPQ|].
  destruct (attempt_run a m h) as (r & evs & Heq & Hev). rewrite Heq.
  specialize (Hatt h evs r HP Hev).
  destruct r as [r|e].
  - destruct (scan_updates (updates r)); simpl; [|by apply IH].
    by apply HPQ, Hparse.
  - destruct e; simpl; try by apply HPQ.
    destruct (recover self a file x (h ++ evs)) as [[f|e] h2] eqn:Hr.
    + apply IH. exact (Hrec _ _ _ _ Hatt Hr).
    + simpl. apply HPQ. exact (Hrec _ _ _ _ Hatt Hr).
Qed.

(** Without a handle the loop never calls [save_file]. *)
Lemma send_loop_no_upload (fuel : nat) (a : @Args Obj) (m : InputMedia) (h : History) :
  uploads (snd (send_loop self fuel a m None h)) = uploads h.
Proof.
  apply (send_loop_inv (λ h', uploads h' = uploads h) (λ h', uploads h' = uploads h));
    try done.
  - intros h' evs r HP Hev. by rewrite uploads_app, (attempt_events_uploads _ _ _ _ _ Hev), app_nil_r.
  - intros h' x r h2 HP Hrec. unfold recover, mraise in Hrec. by simplify_eq.
  - intros h' msg us cs HP. by rewrite uploads_app, app_nil_r.
Qed.

(** Every request of the loop carries the descriptor it was given and
    the silent flag computed from [disable_notification]. *)
Lemma send_loop_requests (fuel : nat) (a : @Args Obj) (m : InputMedia)
    (file : option InputFile) (h : History) :
  sends h = [] →
  Forall (λ req, media req = m ∧ silent req = or_None (disable_notification a))
         (sends (snd (send_loop self fuel a m file h))).
Proof.
  intros Hh.
  set (R := λ req : SendMedia, media req = m ∧ silent req = or_None (disable_notification a)).
  apply (send_loop_inv (λ h', Forall R (sends h')) (λ h', Forall R (sends h'))); try done.
  - intros h' evs r HP Hev. rewrite sends_app. apply Forall_app. split; [done|].
    by eapply attempt_events_sends.
  - intros h' x r h2 HP Hrec. unfold recover in Hrec.
    destruct file as [f|]; unfold mraise, do_save_file, call in Hrec; simplify_eq; [|done].
    by rewrite sends_app, app_nil_r.
  - intros h' msg us cs HP. by rewrite sends_app, app_nil_r.
  - rewrite Hh. constructor.
Qed.

End Loop.

(** ** The three branches of the resolution *)

Section Branches.

Context {Obj : Type} (self : @Client Obj).

Lemma unpack_file_id_inv (s : string) (u : list Z) :
  unpack_file_id self s = Ok u →
  ∃ d, decode self s = Ok d ∧
       ((length d = 24%nat ∧ u = short_layout d) ∨
        (length d = 44%nat ∧ u = long_layout d)).
Proof.
  unfold unpack_file_id. destruct (decode self s) as [d|e] eqn:Hd.
  2: { destruct (caught e); discriminate. }
  intros Hu. exists d. split; [done|].
  destruct (decide (24 < length d)%nat) as [Hlt|Hle].
  - destruct (decide (length d = 44%nat)) as [H44|H44].
    + rewrite unpack_long in Hu by done. right. by simplify_eq.
    + by rewrite unpack_long_bad in Hu.
  - destruct (decide (length d = 24%nat)) as [H24|H24].
    + rewrite unpack_short in Hu by done. left. by simplify_eq.
    + by rewrite unpack_short_bad in Hu.
Qed.

Lemma send_gif_no_handle (fuel : nat) (a : @Args Obj) (m : InputMedia) :
  resolve self a [] = (Ok (m, None), []) →
  send_gif self fuel a = send_loop self fuel a m None [].
Proof. intros Hr. unfold send_gif. by rewrite Hr. Qed.

(** C2 (as amended): when the identifier unpacks and its first field is
    the document code 10, the descriptor is [InputMediaDocument] with
    [id] the third and [access_hash] the fourth unpacked field
    ([unpacked[2]] and [unpacked[3]]), in the short and in the long
    layout alike, and [save_file] is never called. *)
Theorem document_from_third_and_fourth_field (fuel : nat) (a : @Args Obj)
    (unpacked : list Z) :
  path_exists self (gif a) = false → startswith (gif a) "http" = false →
  unpack_file_id self (gif a) = Ok unpacked →
  unpacked !! 0%nat = Some 10 →
  ∃ i k, unpacked !! 2%nat = Some i ∧ unpacked !! 3%nat = Some k ∧
         resolve self a [] =
           (Ok (InputMediaDocument {| doc_id := i; access_hash := k |}, None), []) ∧
         uploads (snd (send_gif self fuel a)) = [].
Proof.
  intros He Hp Hu Hk.
  assert (∃ i k, unpacked !! 2%nat = Some i ∧ unpacked !! 3%nat = Some k)
    as (i & k & Hi & Hk').
  { destruct (unpack_file_id_inv _ _ Hu) as (d & _ & [[_ ->]|[_ ->]]);
      eexists _, _; split; reflexivity. }
  exists i, k. split; [done|]. split; [done|].
  assert (resolve self a [] =
            (Ok (InputMediaDocument {| doc_id := i; access_hash := k |}, None), []))
    as Hr.
  { rewrite resolve_third_branch by done.
    unfold resolve_file_id. rewrite Hu.
    unfold media_of_unpacked, getitem. by rewrite Hk, Hi, Hk'. }
  split; [done|].
  rewrite (send_gif_no_handle _ _ _ Hr). apply send_loop_no_upload.
Qed.

(** C6: when the identifier unpacks and its first field is not 10,
    [send_gif] raises [FileIdInvalid] before any call is made: with the
    message that names the media type when the table has a name for the
    code, and with the message that prints the code when it has none. *)
Theorem other_kind_is_refused (fuel : nat) (a : @Args Obj) (unpacked : list Z)
    (kind : Z) :
  path_exists self (gif a) = false → startswith (gif a) "http" = false →
  unpack_file_id self (gif a) = Ok unpacked →
  unpacked !! 0%nat = Some kind → kind ≠ 10 →
  (∀ name, MEDIA_TYPE_ID self !! kind = Some name → name ≠ ""%string →
     send_gif self fuel a =
       (Some (Raise (FileIdInvalid (Some ("The file_id belongs to a " +:+ name)))), [])) ∧
  (MEDIA_TYPE_ID self !! kind = None →
     send_gif self fuel a =
       (Some (Raise (FileIdInvalid (Some ("Unknown media type: " +:+ str_int kind)))), [])).
Proof.
  intros He Hp Hu Hk Hne.
  assert (negb (kind =? 10) = true) as Hneb.
  { apply negb_true_iff, Z.eqb_neq. done. }
  split.
  - intros name Hname Hnonempty. apply send_gif_resolve_raises.
    rewrite resolve_third_branch by done.
    unfold resolve_file_id. rewrite Hu.
    unfold media_of_unpacked, getitem. rewrite Hk, Hneb, Hname.
    unfold truthy. destruct (String.eqb_spec name ""); [done|]. reflexivity.
  - intros Hnone. apply send_gif_resolve_raises.
    rewrite resolve_third_branch by done.
    unfold resolve_file_id. rewrite Hu.
    unfold media_of_unpacked, getitem. by rewrite Hk, Hneb, Hnone.
Qed.

Lemma resolve_file_id_shape (s : string) (m : InputMedia) :
  resolve_file_id self s = Ok m → ∃ d, m = InputMediaDocument d.
Proof.
  unfold resolve_file_id, media_of_unpacked.
  destruct (unpack_file_id self s) as [u|]; [|done].
  destruct (getitem u 0) as [k|]; [|done].
  destruct (negb (k =? 10)).
  - destruct (MEDIA_TYPE_ID self !! k) as [n|]; [destruct (truthy n)|]; done.
  - destruct (getitem u 2), (getitem u 3); try done.
    intros ?; simplify_eq. eauto.
Qed.

(** The first branch, step by step. *)
Lemma resolve_local (a : @Args Obj) :
  path_exists self (gif a) = true →
  resolve self a [] =
    match thumb a with
    | None =>
        match save_file self [] (gif a) None 0 (progress a) (progress_args a) with
        | Ok file =>
            (Ok (InputMediaUploadedDocument "video/mp4" file None
                   [ DocumentAttributeVideo true (duration a) (width a) (height a);
                     DocumentAttributeFilename (basename (gif a));
                     DocumentAttributeAnimated ],
                 Some file),
             [ SaveFile (gif a) None 0 (progress a) (progress_args a) ])
        | Raise e =>
            (Raise e, [ SaveFile (gif a) None 0 (progress a) (progress_args a) ])
        end
    | Some t =>
        match save_file self [] t None 0 None [] with
        | Ok tf =>
            match save_file self [ SaveFile t None 0 None [] ] (gif a) None 0
                    (progress a) (progress_args a) with
            | Ok file =>
                (Ok (InputMediaUploadedDocument "video/mp4" file (Some tf)
                       [ DocumentAttributeVideo true (duration a) (width a) (height a);
                         DocumentAttributeFilename (basename (gif a));
                         DocumentAttributeAnimated ],
                     Some file),
                 [ SaveFile t None 0 None [];
                   SaveFile (gif a) None 0 (progress a) (progress_args a) ])
            | Raise e =>
                (Raise e,
                 [ SaveFile t None 0 None [];
                   SaveFile (gif a) None 0 (progress a) (progress_args a) ])
            end
        | Raise e => (Raise e, [ SaveFile t None 0 None [] ])
        end
    end.
Proof.
  intros He. unfold resolve. rewrite He.
  unfold mbind, do_save_file, call, lift, mret.
  destruct (thumb a) as [t|]; simpl.
  - destruct (save_file self [] t None 0 None []); simpl; [|done].
    by destruct (save_file self _ (gif a) None 0 (progress a) (progress_args a)).
  - by destruct (save_file self [] (gif a) None 0 (progress a) (progress_args a)).
Qed.

(** C4: the three tests are made in a fixed order.  A string that
    names an existing file is uploaded, whether or not it starts with
    "http", and never becomes an external document; a string that names
    no file and starts with "http" becomes an external document with no
    call made; any other string is read as an identifier. *)
Theorem resolution_order (a : @Args Obj) :
  (path_exists self (gif a) = true →
     uploads (snd (resolve self a [])) ≠ [] ∧
     ∀ m f, fst (resolve self a []) = Ok (m, f) →
            ∃ mime file th attrs,
              m = InputMediaUploadedDocument mime file th attrs ∧ f = Some file) ∧
  (path_exists self (gif a) = false → startswith (gif a) "http" = true →
     resolve self a [] = (Ok (InputMediaDocumentExternal (gif a), None), [])) ∧
  (path_exists self (gif a) = false → startswith (gif a) "http" = false →
     resolve self a [] =
       (match resolve_file_id self (gif a) with
        | Ok m => Ok (m, None)
        | Raise e => Raise e
        end, []) ∧
     ∀ m, resolve_file_id self (gif a) = Ok m → ∃ d, m = InputMediaDocument d).
Proof.
  split; [|split].
  - intros He. rewrite (resolve_local a He).
    destruct (thumb a) as [t|].
    + destruct (save_file self [] t None 0 None []) as [tf|e]; simpl; [|done].
      destruct (save_file self _ (gif a) None 0 (progress a) (progress_args a));
        simpl; split; try done.
      intros m f ?; simplify_eq. eauto 6.
    + destruct (save_file self [] (gif a) None 0 (progress a) (progress_args a));
        simpl; split; try done.
      intros m f ?; simplify_eq. eauto 6.
  - intros He Hp. unfold resolve. by rewrite He, Hp.
  - intros He Hp. split; [by apply resolve_third_branch|].
    apply resolve_file_id_shape.
Qed.

(** C7: for an existing file, whatever the other arguments, a
    resolution that returns has built [InputMediaUploadedDocument] with
    the mime type "video/mp4" and the three attributes: the video
    attribute with [supports_streaming] set and the given duration,
    width and height, the file name [basename gif], and the animated
    marker; and it does return as soon as the uploads succeed. *)
Theorem uploaded_document_descriptor (a : @Args Obj) :
  path_exists self (gif a) = true →
  let attrs :=
    [ DocumentAttributeVideo true (duration a) (width a) (height a);
      DocumentAttributeFilename (basename (gif a));
      DocumentAttributeAnimated ] in
  (∀ m f h, resolve self a [] = (Ok (m, f), h) →
     ∃ file th, m = InputMediaUploadedDocument "video/mp4" file th attrs ∧
                f = Some file) ∧
  (∀ file, thumb a = None →
     save_file self [] (gif a) None 0 (progress a) (progress_args a) = Ok file →
     resolve self a [] =
       (Ok (InputMediaUploadedDocument "video/mp4" file None attrs, Some file),
        [ SaveFile (gif a) None 0 (progress a) (progress_args a) ])) ∧
  (∀ t tf file, thumb a = Some t →
     save_file self [] t None 0 None [] = Ok tf →
     save_file self [ SaveFile t None 0 None [] ] (gif a) None 0
       (progress a) (progress_args a) = Ok file →
     resolve self a [] =
       (Ok (InputMediaUploadedDocument "video/mp4" file (Some tf) attrs, Some file),
        [ SaveFile t None 0 None [];
          SaveFile (gif a) None 0 (progress a) (progress_args a) ])).
Proof.
  intros He attrs. rewrite (resolve_local a He). subst attrs.
  split; [|split].
  - intros m f h. destruct (thumb a) as [t|].
    + destruct (save_file self [] t None 0 None []) as [tf|e]; [|done].
      destruct (save_file self _ (gif a) None 0 (progress a) (progress_args a));
        [|done].
      intros ?; simplify_eq. eauto.
    + destruct (save_file self [] (gif a) None 0 (progress a) (progress_args a));
        [|done].
      intros ?; simplify_eq. eauto.
  - intros file Ht Hs. by rewrite Ht, Hs.
  - intros t tf file Ht Hs1 Hs2. by rewrite Ht, Hs1, Hs2.
Qed.

End Branches.

(** C2, the claim as stated fails on the long layout: the sample
    identifier "long-gif" unpacks to the seven fields 10, 2, 1, 2, 3, 4, 0,
    whose fifth and sixth fields are 3 and 4, and the descriptor takes
    its [id] and [access_hash] from the third and fourth, 1 and 2. *)
Lemma long_layout_document_counterexample :
  unpack_file_id (sample_client [] []) "long-gif" = Ok [10; 2; 1; 2; 3; 4; 0] ∧
  resolve (sample_client [] []) (sample_args "long-gif") [] =
    (Ok (InputMediaDocument {| doc_id := 1; access_hash := 2 |}, None), []) ∧
  InputMediaDocument {| doc_id := 1; access_hash := 2 |}
    ≠ InputMediaDocument {| doc_id := 3; access_hash := 4 |}.
Proof. split; [|split]; [by vm_compute..|discriminate]. Qed.

Lemma document_from_third_and_fourth_field_witness :
  resolve (sample_client [] []) (sample_args "short-gif") [] =
    (Ok (InputMediaDocument {| doc_id := 11; access_hash := 12 |}, None), []) ∧
  uploads (snd (send_gif (sample_client [] []) 3 (sample_args "short-gif"))) = [].
Proof.
  destruct (document_from_third_and_fourth_field (sample_client [] []) 3
              (sample_args "short-gif") [10; 2; 11; 12]
              eq_refl eq_refl ltac:(vm_compute; reflexivity) eq_refl)
    as (i & k & Hi & Hk & Hr & Hu).
  injection Hi as <-. injection Hk as <-. split; [exact Hr | exact Hu].
Defined.

(** Code 2 is named "video" in the sample table, and 99 has no name. *)
Lemma other_kind_is_refused_witness :
  send_gif (sample_client [] []) 3 (sample_args "short-video") =
    (Some (Raise (FileIdInvalid (Some "The file_id belongs to a video"))), []) ∧
  send_gif (sample_client [] []) 3 (sample_args "short-unknown") =
    (Some (Raise (FileIdInvalid (Some "Unknown media type: 99"))), []).
Proof.
  split.
  - refine (proj1 (other_kind_is_refused (sample_client [] []) 3
              (sample_args "short-video") [2; 2; 11; 12] 2
              eq_refl eq_refl ltac:(vm_compute; reflexivity) eq_refl _)
              "video"%string eq_refl _); discriminate.
  - refine (proj2 (other_kind_is_refused (sample_client [] []) 3
              (sample_args "short-unknown") [99; 2; 11; 12] 99
              eq_refl eq_refl ltac:(vm_compute; reflexivity) eq_refl _)
              eq_refl); discriminate.
Defined.

(** "http.mp4" names an existing file and starts with "http": it is
    uploaded.  A URL that names no file is passed on as it is. *)
Lemma resolution_order_witness :
  startswith "http.mp4" "http" = true ∧
  uploads (snd (resolve (sample_client ["http.mp4"%string] []) (sample_args "http.mp4") []))
    ≠ [] ∧
  resolve (sample_client ["http.mp4"%string] []) (sample_args "http://example.com/a.gif") [] =
    (Ok (InputMediaDocumentExternal "http://example.com/a.gif", None), []).
Proof.
  split; [reflexivity|]. split.
  - exact (proj1 (proj1 (resolution_order (sample_client ["http.mp4"%string] [])
                           (sample_args "http.mp4")) eq_refl)).
  - exact (proj1 (proj2 (resolution_order (sample_client ["http.mp4"%string] [])
                           (sample_args "http://example.com/a.gif"))) eq_refl eq_refl).
Defined.

Lemma uploaded_document_descriptor_witness :
  resolve (sample_client ["/tmp/clip.mp4"%string] []) (sample_args "/tmp/clip.mp4") [] =
    (Ok (InputMediaUploadedDocument "video/mp4" sample_file None
           [ DocumentAttributeVideo true 5 100 100;
             DocumentAttributeFilename "clip.mp4";
             DocumentAttributeAnimated ],
         Some sample_file),
     [ SaveFile "/tmp/clip.mp4" None 0 None [] ]).
Proof.
  exact (proj1 (proj2 (uploaded_document_descriptor
                         (sample_client ["/tmp/clip.mp4"%string] [])
                         (sample_args "/tmp/clip.mp4") eq_refl))
           sample_file eq_refl eq_refl).
Defined.

(** ** The loop: correlation identifier, silent flag, absent handle *)

Section Requests.

Context {Obj : Type} (self : @Client Obj).

Lemma id_run_app (p : option Z) (h1 h2 : @History Obj) :
  id_run p (h1 ++ h2) =
    match id_run p h1 with
    | Some p' => id_run p' h2
    | None => None
    end.
Proof.
  revert p. induction h1 as [|ev h1 IH]; intros p; simpl; [done|].
  destruct (id_step p ev); [apply IH | done].
Qed.

Lemma id_run_no_send (p : option Z) (evs : @History Obj) :
  sends evs = [] →
  id_run p evs = Some (from_option Some p (last (rnd_ids evs))).
Proof.
  revert p. induction evs as [|ev evs IH]; intros p Hs; simpl; [done|].
  destruct ev; simpl in *; try (by apply IH); [|done].
  rewrite IH by done.
  destruct (rnd_ids evs) as [|z l] eqn:Hl; simpl; [done|].
  destruct (last (z :: l)) as [y|] eqn:Hlast.
  - done.
  - by apply last_None in Hlast.
Qed.

Lemma resolve_history (a : @Args Obj) :
  sends (snd (resolve self a [])) = [] ∧ rnd_ids (snd (resolve self a [])) = [].
Proof.
  destruct (path_exists self (gif a)) eqn:He.
  - rewrite (resolve_local self a He).
    destruct (thumb a) as [t|].
    + destruct (save_file self [] t None 0 None []); [|done].
      by destruct (save_file self _ (gif a) None 0 (progress a) (progress_args a)).
    + by destruct (save_file self [] (gif a) None 0 (progress a) (progress_args a)).
  - destruct (startswith (gif a) "http") eqn:Hp.
    + unfold resolve. by rewrite He, Hp.
    + by rewrite resolve_third_branch.
Qed.

Lemma send_gif_history (fuel : nat) (a : @Args Obj) :
  (∃ e, send_gif self fuel a = (Some (Raise e), snd (resolve self a []))) ∨
  (∃ m file, send_gif self fuel a
               = send_loop self fuel a m file (snd (resolve self a []))).
Proof.
  unfold send_gif. destruct (resolve self a []) as [[[m file]|e] h]; simpl; eauto.
Qed.

(** C1 (as amended): in every run, each send call, the first one and
    each retry, carries the value of a call of [rnd_id] made for it,
    after the send call before it: the request is built, and
    [self.rnd_id()] is called, once per round of the loop. *)
Theorem random_id_drawn_per_attempt (fuel : nat) (a : @Args Obj) :
  drawn_per_attempt (snd (send_gif self fuel a)) = true.
Proof.
  assert (∀ h : @History Obj, is_Some (id_run None h) → drawn_per_attempt h = true)
    as Hdone.
  { intros h [p Hp]. unfold drawn_per_attempt. by rewrite Hp. }
  destruct (resolve_history a) as [Hs Hr].
  assert (∀ p, is_Some (id_run p (snd (resolve self a [])))) as Hstart.
  { intros p. rewrite id_run_no_send by done. eauto. }
  destruct (send_gif_history fuel a) as [[e ->]|(m & file & ->)].
  { apply Hdone, Hstart. }
  apply Hdone.
  apply (send_loop_inv self (λ h, is_Some (id_run None h))
                            (λ h, is_Some (id_run None h))); try done.
  - intros h evs r [p Hp] Hev. rewrite id_run_app, Hp.
    destruct Hev as [e evs Hsd Hu Hrn | req evs Hsd Hu Hrn Hm Hsil Hrep].
    + rewrite id_run_no_send by done. eauto.
    + rewrite id_run_app, id_run_no_send, Hrn by done. simpl.
      rewrite decide_True by done. eauto.
  - intros h x r h2 [p Hp] Hrec. unfold recover in Hrec.
    destruct file as [f|]; unfold mraise, do_save_file, call in Hrec; simplify_eq;
      [|by eauto].
    rewrite id_run_app, Hp. simpl. eauto.
  - intros h msg us cs [p Hp]. rewrite id_run_app, Hp. simpl. eauto.
Qed.

(** C10: a request carries [silent] set exactly when
    [disable_notification] is [True]; with [False] the flag is absent,
    and the whole run is the one of a call that does not give
    [disable_notification]. *)
Theorem silent_absent_unless_true (fuel : nat) (a : @Args Obj) :
  (∀ req, req ∈ sends (snd (send_gif self fuel a)) →
     silent req = match disable_notification a with
                  | Some true => Some true
                  | _ => None
                  end) ∧
  (disable_notification a = Some false →
     (∀ req, req ∈ sends (snd (send_gif self fuel a)) → silent req = None) ∧
     send_gif self fuel a = send_gif self fuel (with_disable_notification None a)).
Proof.
  assert (∀ req, req ∈ sends (snd (send_gif self fuel a)) →
            silent req = or_None (disable_notification a)) as Hall.
  { intros req Hin. destruct (resolve_history a) as [Hs _].
    destruct (send_gif_history fuel a) as [[e Heq]|(m & file & Heq)];
      rewrite Heq in Hin; simpl in Hin.
    - rewrite Hs in Hin. by apply elem_of_nil in Hin.
    - pose proof (send_loop_requests self fuel a m file _ Hs) as Hfa.
      rewrite Forall_forall in Hfa. by apply Hfa. }
  split; [exact Hall|].
  intros Hfalse. split.
  - intros req Hin. rewrite (Hall req Hin), Hfalse. done.
  - assert (∀ m file n h, send_loop self n a m file h
              = send_loop self n (with_disable_notification None a) m file h) as Hloop.
    { intros m file n. induction n as [|n IH]; intros h; simpl; [done|].
      assert (attempt self (with_disable_notification None a) m h = attempt self a m h)
        as ->.
      { unfold attempt. simpl. by rewrite Hfalse. }
      destruct (attempt self a m h) as [[r|e] h1].
      - destruct (scan_updates (updates r)); [done | apply IH].
      - destruct e; try done.
        assert (recover self (with_disable_notification None a) file x h1
                = recover self a file x h1) as -> by done.
        destruct (recover self a file x h1) as [[f|e] h2]; [apply IH | done]. }
    unfold send_gif.
    assert (resolve self (with_disable_notification None a) [] = resolve self a [])
      as -> by done.
    destruct (resolve self a []) as [[[m file]|e] h]; [apply Hloop | done].
Qed.

(** C9: when the file does not exist locally, the resolution leaves
    [file] at [None]; if the first [try] block then raises
    [FilePartMissing], the handler evaluates [file.id] on [None]: the
    call ends with [AttributeError] in place of the missing-part
    failure, [save_file] is not called, and nothing is sent again. *)
Theorem missing_part_without_handle (fuel : nat) (a : @Args Obj) (m : InputMedia)
    (f : option InputFile) (h0 h1 : History) (x : Z) :
  path_exists self (gif a) = false →
  resolve self a [] = (Ok (m, f), h0) →
  attempt self a m h0 = (Raise (FilePartMissing x), h1) →
  f = None ∧ h0 = [] ∧
  send_gif self (S fuel) a =
    (Some (Raise (AttributeError "'NoneType' object has no attribute 'id'")), h1) ∧
  uploads h1 = [] ∧ (length (sends h1) ≤ 1)%nat.
Proof.
  intros He Hr Hatt.
  assert (f = None ∧ h0 = []) as [-> ->].
  { destruct (startswith (gif a) "http") eqn:Hp.
    - unfold resolve in Hr. rewrite He, Hp in Hr. unfold mret in Hr. by simplify_eq.
    - rewrite resolve_third_branch in Hr by done.
      destruct (resolve_file_id self (gif a)); by simplify_eq. }
  split; [done|]. split; [done|]. split.
  - unfold send_gif. rewrite Hr. simpl. by rewrite Hatt.
  - destruct (attempt_run self a m []) as (r & evs & Heq & Hev).
    rewrite Hatt in Heq. simplify_eq. simpl.
    split; [by eapply attempt_events_uploads|].
    pose proof (attempt_events_sends self a m [] _ evs Hev) as Hfa.
    destruct Hev as [e evs Hsd Hu Hrn | req evs Hsd Hu Hrn Hm Hsil Hrep].
    + rewrite Hsd. simpl. lia.
    + rewrite sends_app, Hsd. simpl. lia.
Qed.

End Requests.

(** ** The loop against a scripted server

    The collaborators of the [try] block other than [send] succeed, and
    the [k]-th call of [send] is answered by [script k]. *)

Section Scripted.

Context {Obj : Type} (self : @Client Obj) (a : @Args Obj).
Variable script : nat → result (@Updates Obj).

Hypothesis peer_ok : ∀ h, ∃ p, resolve_peer self h (chat_id a) = Ok p.
Hypothesis markup_ok : ∀ h k, ∃ b, markup_write self h k = Ok b.
Hypothesis style_ok : ∀ h, ∃ st, style_parse self h (is_html a) (caption a) = Ok st.
Hypothesis send_scripted : ∀ h req, send self h req = script (length (sends h)).
Hypothesis reupload_ok :
  ∀ h i x, ∃ f', save_file self h (gif a) (Some i) x None [] = Ok f'.

Lemma attempt_scripted (m : InputMedia) (h : History) :
  ∃ evs req,
    attempt self a m h = (script (length (sends h)), h ++ evs ++ [Send req]) ∧
    sends evs = [] ∧ uploads evs = [].
Proof.
  unfold attempt, mbind, call, do_rnd_id, mret.
  destruct (peer_ok h) as [p ->]. simpl.
  destruct (reply_markup a) as [k|]; simpl.
  - destruct (markup_ok ((h ++ [ResolvePeer (chat_id a)]) ++
                         [RndId (rnd_id self (h ++ [ResolvePeer (chat_id a)]))]) k)
      as [b ->]. simpl.
    match goal with
    | |- context [style_parse self ?h1 _ _] => destruct (style_ok h1) as [st ->]
    end.
    rewrite send_scripted.
    eexists [_; _; _; _], _. rewrite !sends_app, <- !app_assoc. simpl.
    rewrite app_nil_r. done.
  - match goal with
    | |- context [style_parse self ?h1 _ _] => destruct (style_ok h1) as [st ->]
    end.
    rewrite send_scripted.
    eexists [_; _; _], _. rewrite !sends_app, <- !app_assoc. simpl.
    rewrite app_nil_r. done.
Qed.

(** As long as the server reports missing parts, each is uploaded again
    and the loop goes on. *)
Lemma retry_rounds (m : InputMedia) (f : InputFile) (xs : list Z) :
  ∀ (fuel : nat) (h : History),
    (∀ k x, xs !! k = Some x →
            script (length (sends h) + k) = Raise (FilePartMissing x)) →
    ∃ h', send_loop self (length xs + fuel) a m (Some f) h
            = send_loop self fuel a m (Some f) h' ∧
          uploads h' = uploads h ++ ((λ x, (gif a, Some (file_id f), x)) <$> xs) ∧
          length (sends h') = (length (sends h) + length xs)%nat.
Proof.
  induction xs as [|x xs IH]; intros fuel h Hxs.
  - exists h. simpl. rewrite app_nil_r. split; [done|]. split; [done|lia].
  - destruct (attempt_scripted m h) as (evs & req & Heq & Hsd & Hu).
    pose proof (Hxs 0%nat x eq_refl) as H0. rewrite Nat.add_0_r in H0.
    rewrite H0 in Heq.
    set (h1 := h ++ evs ++ [Send req]) in *.
    destruct (reupload_ok h1 (file_id f) x) as [f' Hf].
    destruct (IH fuel (h1 ++ [SaveFile (gif a) (Some (file_id f)) x None []]))
      as (h' & Hloop & Hup & Hlen).
    { intros k y Hk. subst h1. rewrite !sends_app, Hsd. simpl.
      rewrite app_nil_r, length_app. simpl.
      replace (length (sends h) + 1 + k)%nat with (length (sends h) + S k)%nat by lia.
      by apply Hxs. }
    exists h'. split; [|split].
    + simpl. rewrite Heq. unfold recover, do_save_file, call. rewrite Hf. exact Hloop.
    + rewrite Hup. subst h1. rewrite !uploads_app, Hu. simpl.
      by rewrite app_nil_r, <- app_assoc.
    + rewrite Hlen. subst h1. rewrite !sends_app, Hsd. simpl.
      rewrite app_nil_r, length_app. simpl. lia.
Qed.

Lemma send_loop_other_failure (fuel : nat) (m : InputMedia) (file : option InputFile)
    (h h1 : History) (e : exn) :
  attempt self a m h = (Raise e, h1) → is_FilePartMissing e = false →
  send_loop self (S fuel) a m file h = (Some (Raise e), h1).
Proof. intros Heq He. simpl. rewrite Heq. by destruct e. Qed.

(** C5 (as amended): with an upload handle, a missing-part failure of
    the send call is handled inside the loop and never shown to the
    caller: the part is uploaded again with the handle's identifier and
    the send is made again, as many times as the failure comes back;
    after [n] such failures followed by any other failure [e], the
    caller gets [e], [n] parts were uploaded again and [n + 1] sends
    were made.  Any failure of the [try] block other than a missing
    part ends the loop at once with that failure.  If the server
    reports a missing part every time, the loop never ends. *)
Theorem missing_part_retried_with_handle (m : InputMedia) (f : InputFile) (h : History) :
  (∀ (xs : list Z) (e : exn) (fuel : nat),
     (∀ k x, xs !! k = Some x →
             script (length (sends h) + k) = Raise (FilePartMissing x)) →
     script (length (sends h) + length xs) = Raise e →
     is_FilePartMissing e = false →
     ∃ h', send_loop self (length xs + S fuel) a m (Some f) h = (Some (Raise e), h') ∧
           uploads h' = uploads h ++ ((λ x, (gif a, Some (file_id f), x)) <$> xs) ∧
           length (sends h') = (length (sends h) + length xs + 1)%nat) ∧
  (∀ (fuel : nat) (file : option InputFile) (h0 h1 : History) (e : exn),
     attempt self a m h0 = (Raise e, h1) → is_FilePartMissing e = false →
     send_loop self (S fuel) a m file h0 = (Some (Raise e), h1)) ∧
  ((∀ k, ∃ x, script k = Raise (FilePartMissing x)) →
   ∀ fuel, ∃ h', send_loop self fuel a m (Some f) h = (None, h') ∧
                 length (sends h') = (length (sends h) + fuel)%nat ∧
                 length (uploads h') = (length (uploads h) + fuel)%nat).
Proof.
  split; [|split].
  - intros xs e fuel Hxs He Hne.
    destruct (retry_rounds m f xs (S fuel) h Hxs) as (h1 & Hloop & Hup & Hlen).
    destruct (attempt_scripted m h1) as (evs & req & Heq & Hsd & Hu).
    rewrite Hlen, He in Heq.
    exists (h1 ++ evs ++ [Send req]). split; [|split].
    + rewrite Hloop. by apply send_loop_other_failure.
    + rewrite !uploads_app, Hu, Hup. simpl. by rewrite app_nil_r.
    + rewrite !sends_app, Hsd, !length_app, Hlen. simpl. lia.
  - intros fuel file h0 h1 e. apply send_loop_other_failure.
  - intros Hall fuel. revert h.
    induction fuel as [|fuel IH]; intros h.
    + exists h. simpl. split; [done|]. split; lia.
    + destruct (attempt_scripted m h) as (evs & req & Heq & Hsd & Hu).
      destruct (Hall (length (sends h))) as [x Hx]. rewrite Hx in Heq.
      set (h1 := h ++ evs ++ [Send req]) in *.
      destruct (reupload_ok h1 (file_id f) x) as [f' Hf].
      destruct (IH (h1 ++ [SaveFile (gif a) (Some (file_id f)) x None []]))
        as (h' & Hloop & Hlen & Hups).
      exists h'. split; [|split].
      * simpl. rewrite Heq. unfold recover, do_save_file, call. by rewrite Hf.
      * rewrite Hlen. subst h1. rewrite !sends_app, Hsd. simpl.
        rewrite app_nil_r, length_app. simpl. lia.
      * rewrite Hups. subst h1. rewrite !uploads_app, Hu. simpl.
        rewrite app_nil_r, length_app. simpl. lia.
Qed.

Lemma scan_updates_none (us : list (@Update Obj)) :
  Forall (λ u, new_message u = None) us → scan_updates us = None.
Proof.
  induction 1 as [|u us Hu _ IH]; simpl; [done|]. by rewrite Hu.
Qed.

Lemma scan_updates_first (pre post : list (@Update Obj)) (u : Update) (msg : Obj) :
  Forall (λ v, new_message v = None) pre → new_message u = Some msg →
  scan_updates (pre ++ u :: post) = Some msg.
Proof.
  intros Hpre Hu. induction Hpre as [|v pre Hv _ IH]; simpl.
  - by rewrite Hu.
  - by rewrite Hv.
Qed.

(** C8 (as amended): when the send succeeds, the message handed to
    [utils.parse_messages], whose result is returned, is the one of the
    first update that is an [UpdateNewMessage] or an
    [UpdateNewChannelMessage].  When the response has no such update,
    nothing is reported to the caller: the loop starts its next round
    from there, and sends again; if no response ever has one, the call
    never returns. *)
Theorem first_new_message_or_next_round (m : InputMedia) (file : option InputFile)
    (h : History) :
  (∀ fuel r h1 pre u post msg,
     attempt self a m h = (Ok r, h1) →
     updates r = pre ++ u :: post →
     Forall (λ v, new_message v = None) pre → new_message u = Some msg →
     send_loop self (S fuel) a m file h =
       (Some (parse_messages self h1 msg (by_id (users r)) (by_id (chats r))),
        h1 ++ [ParseMessages msg (by_id (users r)) (by_id (chats r))])) ∧
  (∀ fuel r h1,
     attempt self a m h = (Ok r, h1) →
     Forall (λ v, new_message v = None) (updates r) →
     send_loop self (S fuel) a m file h = send_loop self fuel a m file h1) ∧
  ((∀ k, ∃ r, script k = Ok r ∧ Forall (λ v, new_message v = None) (updates r)) →
   ∀ fuel, ∃ h', send_loop self fuel a m file h = (None, h') ∧
                 length (sends h') = (length (sends h) + fuel)%nat).
Proof.
  split; [|split].
  - intros fuel r h1 pre u post msg Heq Hus Hpre Hu. simpl. rewrite Heq, Hus.
    by rewrite (scan_updates_first pre post u msg).
  - intros fuel r h1 Heq Hnone. simpl. rewrite Heq.
    by rewrite scan_updates_none.
  - intros Hall fuel. revert h.
    induction fuel as [|fuel IH]; intros h.
    + exists h. simpl. split; [done|lia].
    + destruct (attempt_scripted m h) as (evs & req & Heq & Hsd & Hu).
      destruct (Hall (length (sends h))) as (r & Hr & Hnone). rewrite Hr in Heq.
      destruct (IH (h ++ evs ++ [Send req])) as (h' & Hloop & Hlen).
      exists h'. split.
      * simpl. rewrite Heq. by rewrite scan_updates_none.
      * rewrite Hlen, !sends_app, Hsd. simpl. rewrite length_app. simpl. lia.
Qed.

End Scripted.

(** ** The sample runs *)

(** A history in which a second send call reuses the value of the first
    does not pass the reading of [drawn_per_attempt]. *)
Example reused_random_id_is_told_apart :
  let req : @SendMedia string :=
    {| peer := "peer"%string;
       media := InputMediaDocumentExternal "http://example.com/a.gif";
       silent := None; reply_to_msg_id := None; random_id := 1;
       reply_markup_written := None; styled := ""%string |} in
  drawn_per_attempt [RndId 1; Send req; RndId 2; Send req] = false ∧
  drawn_per_attempt [RndId 1; Send req; Send req] = false ∧
  drawn_per_attempt [RndId 1; Send req; SaveFile "f" (Some 7) 3 None []; RndId 1; Send req]
    = true.
Proof. repeat split; by vm_compute. Qed.

(** C1, the claim as stated fails: the file exists, the first send
    fails with [FilePartMissing(3)] and the second succeeds.  Part 3 is
    uploaded again, [rnd_id] is called a second time, and the second
    send carries the new value 2, not the 1 of the first attempt. *)
Lemma retry_draws_new_random_id_counterexample :
  fst (send_gif (sample_client ["/tmp/clip.mp4"%string]
                   [Raise (FilePartMissing 3); Ok sample_sent])
         5 (sample_args "/tmp/clip.mp4")) = Some (Ok "m"%string) ∧
  uploads (snd (send_gif (sample_client ["/tmp/clip.mp4"%string]
                            [Raise (FilePartMissing 3); Ok sample_sent])
                  5 (sample_args "/tmp/clip.mp4")))
    = [ ("/tmp/clip.mp4"%string, None, 0); ("/tmp/clip.mp4"%string, Some 77, 3) ] ∧
  random_id <$> sends (snd (send_gif (sample_client ["/tmp/clip.mp4"%string]
                                        [Raise (FilePartMissing 3); Ok sample_sent])
                              5 (sample_args "/tmp/clip.mp4")))
    = [1; 2] ∧
  rnd_ids (snd (send_gif (sample_client ["/tmp/clip.mp4"%string]
                            [Raise (FilePartMissing 3); Ok sample_sent])
                  5 (sample_args "/tmp/clip.mp4")))
    = [1; 2].
Proof. repeat split; by vm_compute. Qed.

(** C5, the claim as stated fails without a handle: for a URL the
    first send fails with [FilePartMissing(3)]; no part is uploaded, the
    send is not made again although the server would have accepted it,
    and the caller gets [AttributeError]. *)
Lemma missing_part_for_url_counterexample :
  fst (send_gif (sample_client [] [Raise (FilePartMissing 3); Ok sample_sent])
         5 (sample_args "http://example.com/a.gif"))
    = Some (Raise (AttributeError "'NoneType' object has no attribute 'id'")) ∧
  uploads (snd (send_gif (sample_client [] [Raise (FilePartMissing 3); Ok sample_sent])
                  5 (sample_args "http://example.com/a.gif"))) = [] ∧
  length (sends (snd (send_gif (sample_client []
                                  [Raise (FilePartMissing 3); Ok sample_sent])
                        5 (sample_args "http://example.com/a.gif")))) = 1%nat.
Proof. repeat split; by vm_compute. Qed.

(** C8, the claim as stated fails: the first response is a success
    with no new-message update; nothing is reported, the message is
    sent a second time, and the call returns the message of the second
    response. *)
Lemma missing_update_not_reported_counterexample :
  sample_script [Ok sample_no_message; Ok sample_sent] 0 = Ok sample_no_message ∧
  scan_updates (updates sample_no_message) = None ∧
  fst (send_gif (sample_client [] [Ok sample_no_message; Ok sample_sent])
         5 (sample_args "http://example.com/a.gif")) = Some (Ok "m"%string) ∧
  random_id <$> sends (snd (send_gif (sample_client []
                                        [Ok sample_no_message; Ok sample_sent])
                              5 (sample_args "http://example.com/a.gif")))
    = [1; 2].
Proof. repeat split; by vm_compute. Qed.

Lemma sample_peer_ok (files : list string) (script : list (result (@Updates string)))
    (a : @Args string) (h : History) :
  ∃ p, resolve_peer (sample_client files script) h (chat_id a) = Ok p.
Proof. by eexists. Defined.

Lemma sample_markup_ok (files : list string) (script : list (result (@Updates string)))
    (h : History) (k : string) :
  ∃ b, markup_write (sample_client files script) h k = Ok b.
Proof. by eexists. Defined.

Lemma sample_style_ok (files : list string) (script : list (result (@Updates string)))
    (a : @Args string) (h : History) :
  ∃ st, style_parse (sample_client files script) h (is_html a) (caption a) = Ok st.
Proof. by eexists. Defined.

Lemma sample_reupload_ok (files : list string) (script : list (result (@Updates string)))
    (a : @Args string) (h : History) (i x : Z) :
  ∃ f', save_file (sample_client files script) h (gif a) (Some i) x None [] = Ok f'.
Proof. by eexists. Defined.

(** Two missing parts, 3 and then 1, and then an RPC error: both parts
    are uploaded again, three sends are made, the caller gets the RPC
    error. *)
Lemma missing_part_retried_with_handle_witness :
  fst (send_gif (sample_client ["/tmp/clip.mp4"%string]
                   [Raise (FilePartMissing 3); Raise (FilePartMissing 1)])
         3 (sample_args "/tmp/clip.mp4")) = Some (Raise (OtherError "RPCError")) ∧
  uploads (snd (send_gif (sample_client ["/tmp/clip.mp4"%string]
                            [Raise (FilePartMissing 3); Raise (FilePartMissing 1)])
                  3 (sample_args "/tmp/clip.mp4")))
    = [ ("/tmp/clip.mp4"%string, None, 0);
        ("/tmp/clip.mp4"%string, Some 77, 3);
        ("/tmp/clip.mp4"%string, Some 77, 1) ] ∧
  length (sends (snd (send_gif (sample_client ["/tmp/clip.mp4"%string]
                                  [Raise (FilePartMissing 3); Raise (FilePartMissing 1)])
                        3 (sample_args "/tmp/clip.mp4")))) = 3%nat.
Proof.
  set (l := [Raise (FilePartMissing 3); Raise (FilePartMissing 1)]
            : list (result (@Updates string))).
  set (c := sample_client ["/tmp/clip.mp4"%string] l).
  set (a := sample_args "/tmp/clip.mp4").
  pose (m := InputMediaUploadedDocument "video/mp4" sample_file None
               [ DocumentAttributeVideo true 5 100 100;
                 DocumentAttributeFilename "clip.mp4";
                 DocumentAttributeAnimated ]).
  pose (h := [ SaveFile "/tmp/clip.mp4" None 0 None [] ] : @History string).
  destruct (missing_part_retried_with_handle c a (sample_script l)
              (sample_peer_ok _ l a) (sample_markup_ok _ l) (sample_style_ok _ l a)
              (λ _ _, eq_refl) (sample_reupload_ok _ l a)
              m sample_file h) as [Hretry _].
  destruct (Hretry [3; 1] (OtherError "RPCError") 0%nat) as (h' & Heq & Hu & Hl).
  { intros [|[|k]] x Hk; simpl in Hk; [| |discriminate Hk];
      injection Hk as <-; reflexivity. }
  { reflexivity. }
  { reflexivity. }
  change (send_gif c 3 a)
    with (send_loop c (length [3; 1] + 1) a m (Some sample_file) h).
  rewrite Heq. simpl. split; [reflexivity|]. split; [exact Hu | exact Hl].
Defined.

(** The first response has no new-message update, the second has one
    after another update: the send is made twice and the message of the
    second response is returned. *)
Lemma first_new_message_or_next_round_witness :
  fst (send_gif (sample_client [] [Ok sample_no_message; Ok sample_sent])
         2 (sample_args "http://example.com/a.gif")) = Some (Ok "m"%string) ∧
  length (sends (snd (send_gif (sample_client [] [Ok sample_no_message; Ok sample_sent])
                        2 (sample_args "http://example.com/a.gif")))) = 2%nat.
Proof.
  set (l := [Ok sample_no_message; Ok sample_sent] : list (result (@Updates string))).
  set (c := sample_client [] l).
  set (a := sample_args "http://example.com/a.gif").
  pose (m := InputMediaDocumentExternal "http://example.com/a.gif").
  pose (h1 := snd (attempt c a m [])).
  pose (h2 := snd (attempt c a m h1)).
  destruct (first_new_message_or_next_round c a (sample_script l)
              (sample_peer_ok _ l a) (sample_markup_ok _ l) (sample_style_ok _ l a)
              (λ _ _, eq_refl) m None []) as (_ & Hnext & _).
  destruct (first_new_message_or_next_round c a (sample_script l)
              (sample_peer_ok _ l a) (sample_markup_ok _ l) (sample_style_ok _ l a)
              (λ _ _, eq_refl) m None h1) as (Hfirst & _ & _).
  change (send_gif c 2 a) with (send_loop c 2 a m None []).
  rewrite (Hnext 1%nat sample_no_message h1 eq_refl).
  2: { repeat constructor. }
  rewrite (Hfirst 0%nat sample_sent h2 [UpdateOther "read"%string]
             (UpdateNewMessage "m"%string 1 1) [] "m"%string eq_refl eq_refl).
  2: { repeat constructor. }
  2: { reflexivity. }
  split; reflexivity.
Defined.

(** An identifier of a document, and a server that reports a missing
    part: [AttributeError], and no upload. *)
Lemma missing_part_without_handle_witness :
  fst (send_gif (sample_client [] [Raise (FilePartMissing 3)]) 1 (sample_args "short-gif"))
    = Some (Raise (AttributeError "'NoneType' object has no attribute 'id'")) ∧
  uploads (snd (send_gif (sample_client [] [Raise (FilePartMissing 3)]) 1
                  (sample_args "short-gif"))) = [].
Proof.
  set (c := sample_client [] [Raise (FilePartMissing 3)]).
  set (a := sample_args "short-gif").
  pose (m := InputMediaDocument {| doc_id := 11; access_hash := 12 |}).
  destruct (missing_part_without_handle c 0 a m None [] (snd (attempt c a m [])) 3
              eq_refl ltac:(vm_compute; reflexivity) ltac:(vm_compute; reflexivity))
    as (_ & _ & Heq & Hu & _).
  rewrite Heq. simpl. split; [reflexivity | exact Hu].
Defined.

(** [disable_notification=False]: the one request sent has no silent
    flag, and the run is the run of the call without the argument. *)
Lemma silent_absent_unless_true_witness :
  (∀ req,
     req ∈ sends (snd (send_gif (sample_client [] [Ok sample_sent]) 3
                         (with_disable_notification (Some false)
                            (sample_args "http://example.com/a.gif")))) →
     silent req = None) ∧
  length (sends (snd (send_gif (sample_client [] [Ok sample_sent]) 3
                        (with_disable_notification (Some false)
                           (sample_args "http://example.com/a.gif"))))) = 1%nat ∧
  send_gif (sample_client [] [Ok sample_sent]) 3
    (with_disable_notification (Some false) (sample_args "http://example.com/a.gif"))
  = send_gif (sample_client [] [Ok sample_sent]) 3
      (sample_args "http://example.com/a.gif").
Proof.
  destruct (silent_absent_unless_true (sample_client [] [Ok sample_sent]) 3
              (with_disable_notification (Some false)
                 (sample_args "http://example.com/a.gif"))) as [_ Hfalse].
  destruct (Hfalse eq_refl) as [Hsilent Hsame].
  split; [exact Hsilent|]. split; [reflexivity | exact Hsame].
Defined.

(** * Further properties of [send_gif] *)

(** ** The loop, with its outcome *)

Section Outcome.

Context {Obj : Type} (self : @Client Obj).

Lemma attempt_trace_run (a : @Args Obj) (m : InputMedia) (h : History) :
  ∃ r evs, attempt self a m h = (r, h ++ evs) ∧ attempt_trace self a m h r evs.
Proof.
  unfold attempt, mbind, call, do_rnd_id, mret.
  destruct (resolve_peer self h (chat_id a)) as [p|e] eqn:Hp; simpl.
  2: { eexists _, [_]. split; [done|]. by apply trace_peer_raised. }
  rewrite <- ?app_assoc. simpl.
  change [ResolvePeer (chat_id a); RndId (rnd_id self (h ++ [ResolvePeer (chat_id a)]))]
    with (drawn self a h).
  destruct (reply_markup a) as [k|] eqn:Hk; simpl.
  - destruct (markup_write self (h ++ drawn self a h) k) as [b|e] eqn:Hw; simpl.
    2: { eexists _, (drawn self a h ++ [MarkupWrite k]).
         rewrite <- ?app_assoc. split; [done|]. by eapply trace_write_raised. }
    rewrite <- ?app_assoc.
    assert (written self a (h ++ drawn self a h) (Some b) [MarkupWrite k]) as Hwr.
    { unfold written. rewrite Hk. eauto. }
    destruct (style_parse self (h ++ drawn self a h ++ [MarkupWrite k])
                (is_html a) (caption a)) as [st|e] eqn:Hs; simpl.
    + eexists _, _. rewrite <- ?app_assoc. split; [reflexivity|].
      exact (trace_sent self a m h p (Some b) [MarkupWrite k] st Hp Hwr Hs).
    + eexists _, _. rewrite <- ?app_assoc. split; [reflexivity|].
      exact (trace_parse_raised self a m h p (Some b) [MarkupWrite k] e Hp Hwr Hs).
  - assert (written self a (h ++ drawn self a h) None []) as Hwr.
    { unfold written. by rewrite Hk. }
    destruct (style_parse self (h ++ drawn self a h) (is_html a) (caption a))
      as [st|e] eqn:Hs; simpl.
    + eexists _, _. rewrite <- ?app_assoc. split; [reflexivity|].
      refine (trace_sent self a m h p None [] st Hp Hwr _).
      by rewrite app_nil_r.
    + eexists _, _. rewrite <- ?app_assoc. split; [reflexivity|].
      refine (trace_parse_raised self a m h p None [] e Hp Hwr _).
      by rewrite app_nil_r.
Qed.

(** A rule for the whole loop: [P] holds at the head of each round,
    [Q] of the outcome and the history when the loop is left, or the
    fuel is spent. *)
Lemma send_loop_outcome (P : @History Obj → Prop)
    (Q : option (result Obj) → @History Obj → Prop)
    (a : Args) (m : InputMedia) (file : option InputFile) :
  (∀ h, P h → Q None h) →
  (∀ h r evs, P h → attempt_trace self a m h r evs →
     match r with
     | Ok u =>
         match scan_updates (updates u) with
         | Some msg =>
             Q (Some (parse_messages self (h ++ evs) msg
                        (by_id (users u)) (by_id (chats u))))
               ((h ++ evs) ++ [ParseMessages msg (by_id (users u)) (by_id (chats u))])
         | None => P (h ++ evs)
         end
     | Raise (FilePartMissing x) =>
         match file with
         | None =>
             Q (Some (Raise (AttributeError "'NoneType' object has no attribute 'id'")))
               (h ++ evs)
         | Some f =>
             match save_file self (h ++ evs) (gif a) (Some (file_id f)) x None [] with
             | Ok _ => P ((h ++ evs) ++ [SaveFile (gif a) (Some (file_id f)) x None []])
             | Raise e =>
                 Q (Some (Raise e))
                   ((h ++ evs) ++ [SaveFile (gif a) (Some (file_id f)) x None []])
             end
         end
     | Raise e => Q (Some (Raise e)) (h ++ evs)
     end) →
  ∀ fuel h, P h →
    Q (fst (send_loop self fuel a m file h)) (snd (send_loop self fuel a m file h)).
Proof.
  intros Hout Hround fuel.
  induction fuel as [|fuel IH]; intros h HP; simpl; [by apply Hout|].
  destruct (attempt_trace_run a m h) as (r & evs & Heq & Htr). rewrite Heq.
  specialize (Hround h r evs HP Htr).
  destruct r as [u|e].
  - destruct (scan_updates (updates u)); [exact Hround | by apply IH].
  - destruct e; try exact Hround.
    unfold recover. destruct file as [f|]; [|exact Hround].
    unfold do_save_file, call.
    destruct (save_file self (h ++ evs) (gif a) (Some (file_id f)) x None []);
      [by apply IH | exact Hround].
Qed.

End Outcome.

(** ** Failures of the resolution *)

Section ResolutionFailures.

Context {Obj : Type} (self : @Client Obj).

(** X1: when [utils.decode] raises, the [except] clause turns
    [AssertionError], [binascii.Error] and [struct.error] into
    [FileIdInvalid] without a message; any other exception reaches the
    caller as it is.  No call is made in either case. *)
Theorem decode_failure_handling (fuel : nat) (a : @Args Obj) (e : exn) :
  path_exists self (gif a) = false → startswith (gif a) "http" = false →
  decode self (gif a) = Raise e →
  ((e = AssertionError ∨ e = BinasciiError ∨ e = StructError) →
     send_gif self fuel a = (Some (Raise (FileIdInvalid None)), [])) ∧
  (e ≠ AssertionError → e ≠ BinasciiError → e ≠ StructError →
     send_gif self fuel a = (Some (Raise e), [])).
Proof.
  intros He Hp Hd.
  assert (send_gif self fuel a
          = (Some (Raise (if caught e then FileIdInvalid None else e)), [])) as Hrun.
  { apply send_gif_resolve_raises. rewrite resolve_third_branch by done.
    unfold resolve_file_id, unpack_file_id. rewrite Hd.
    by destruct (caught e). }
  split.
  - intros [->|[->| ->]]; exact Hrun.
  - intros H1 H2 H3. rewrite Hrun. by destruct e.
Qed.

(** X2: a failure of an upload ends the call with that failure before
    anything is sent: when the thumbnail upload fails the file itself
    is not uploaded, and the thumbnail is uploaded first, with the
    default arguments of [save_file] (no progress callback). *)
Theorem upload_failure_propagates (fuel : nat) (a : @Args Obj) :
  path_exists self (gif a) = true →
  (∀ t e, thumb a = Some t → save_file self [] t None 0 None [] = Raise e →
     send_gif self fuel a = (Some (Raise e), [ SaveFile t None 0 None [] ])) ∧
  (∀ e, thumb a = None →
     save_file self [] (gif a) None 0 (progress a) (progress_args a) = Raise e →
     send_gif self fuel a =
       (Some (Raise e), [ SaveFile (gif a) None 0 (progress a) (progress_args a) ])) ∧
  (∀ t tf e, thumb a = Some t → save_file self [] t None 0 None [] = Ok tf →
     save_file self [ SaveFile t None 0 None [] ] (gif a) None 0
       (progress a) (progress_args a) = Raise e →
     send_gif self fuel a =
       (Some (Raise e),
        [ SaveFile t None 0 None [];
          SaveFile (gif a) None 0 (progress a) (progress_args a) ])).
Proof.
  intros He. split; [|split].
  - intros t e Ht Hs. apply send_gif_resolve_raises.
    by rewrite (resolve_local self a He), Ht, Hs.
  - intros e Ht Hs. apply send_gif_resolve_raises.
    by rewrite (resolve_local self a He), Ht, Hs.
  - intros t tf e Ht Hs1 Hs2. apply send_gif_resolve_raises.
    by rewrite (resolve_local self a He), Ht, Hs1, Hs2.
Qed.

Lemma field_int64 (off : nat) (d : list byte) :
  (off + 8 ≤ length d)%nat → - 2 ^ 63 ≤ field off 8 d < 2 ^ 63.
Proof.
  intros Hlen. unfold field.
  assert (length (take 8 (drop off d)) = 8%nat) as Hl.
  { rewrite length_take, length_drop. lia. }
  pose proof (le_signed_bounds (take 8 (drop off d))) as Hb.
  rewrite Hl in Hb. apply Hb. intros Hnil. by rewrite Hnil in Hl.
Qed.

(** X3: whenever the resolution yields [InputMediaDocument], its [id]
    and [access_hash] are signed 64-bit integers. *)
Theorem document_fields_are_int64 (a : @Args Obj) (d : InputDocument)
    (f : option InputFile) (h : History) :
  resolve self a [] = (Ok (InputMediaDocument d, f), h) →
  (- 2 ^ 63 ≤ doc_id d < 2 ^ 63) ∧ (- 2 ^ 63 ≤ access_hash d < 2 ^ 63).
Proof.
  intros Hr.
  destruct (path_exists self (gif a)) eqn:He.
  { rewrite (resolve_local self a He) in Hr.
    destruct (thumb a) as [t|].
    - destruct (save_file self [] t None 0 None []); [|done].
      by destruct (save_file self _ (gif a) None 0 (progress a) (progress_args a)).
    - by destruct (save_file self [] (gif a) None 0 (progress a) (progress_args a)). }
  destruct (startswith (gif a) "http") eqn:Hp.
  { unfold resolve in Hr. rewrite He, Hp in Hr. done. }
  rewrite resolve_third_branch in Hr by done.
  unfold resolve_file_id in Hr.
  destruct (unpack_file_id self (gif a)) as [u|] eqn:Hu; [|done].
  destruct (unpack_file_id_inv self _ _ Hu) as (bs & _ & Hlay).
  unfold media_of_unpacked, getitem in Hr.
  destruct (u !! 0%nat) as [k|]; [|done].
  destruct (negb (k =? 10)).
  { destruct (MEDIA_TYPE_ID self !! k) as [n|]; [destruct (truthy n)|]; done. }
  destruct (u !! 2%nat) as [i|] eqn:Hi; [|done].
  destruct (u !! 3%nat) as [c|] eqn:Hc; [|done].
  simplify_eq. simpl.
  destruct Hlay as [[Hlen ->]|[Hlen ->]]; simpl in Hi, Hc; simplify_eq;
    split; apply field_int64; lia.
Qed.

End ResolutionFailures.

Lemma lower_ascii_h (c : ascii) : lower_ascii c = "h"%char ↔ c = "h"%char ∨ c = "H"%char.
Proof.
  destruct c as [[] [] [] [] [] [] [] []]; vm_compute;
    (split; [intros ?; first [discriminate | by left | by right]
            | intros [?|?]; first [discriminate | done]]).
Qed.

Lemma lower_ascii_t (c : ascii) : lower_ascii c = "t"%char ↔ c = "t"%char ∨ c = "T"%char.
Proof.
  destruct c as [[] [] [] [] [] [] [] []]; vm_compute;
    (split; [intros ?; first [discriminate | by left | by right]
            | intros [?|?]; first [discriminate | done]]).
Qed.

Lemma lower_ascii_m (c : ascii) : lower_ascii c = "m"%char ↔ c = "m"%char ∨ c = "M"%char.
Proof.
  destruct c as [[] [] [] [] [] [] [] []]; vm_compute;
    (split; [intros ?; first [discriminate | by left | by right]
            | intros [?|?]; first [discriminate | done]]).
Qed.

Lemma lower_ascii_l (c : ascii) : lower_ascii c = "l"%char ↔ c = "l"%char ∨ c = "L"%char.
Proof.
  destruct c as [[] [] [] [] [] [] [] []]; vm_compute;
    (split; [intros ?; first [discriminate | by left | by right]
            | intros [?|?]; first [discriminate | done]]).
Qed.

(** X4: the HTML parser is selected exactly when [parse_mode] is the
    four letters h, t, m, l, each in either case; every other string,
    the empty one and " html" included, selects the Markdown parser. *)
Theorem html_selected_iff {Obj : Type} (a : @Args Obj) :
  is_html a = true ↔
  ∃ c1 c2 c3 c4,
    parse_mode a = String c1 (String c2 (String c3 (String c4 EmptyString))) ∧
    (c1 = "h" ∨ c1 = "H")%char ∧ (c2 = "t" ∨ c2 = "T")%char ∧
    (c3 = "m" ∨ c3 = "M")%char ∧ (c4 = "l" ∨ c4 = "L")%char.
Proof.
  unfold is_html. rewrite String.eqb_eq.
  destruct (parse_mode a) as [|c1 [|c2 [|c3 [|c4 [|c5 s]]]]]; simpl.
  1-4: split; [discriminate | by intros (? & ? & ? & ? & ? & _)].
  2: split; [discriminate | by intros (? & ? & ? & ? & ? & _)].
  split.
  - intros Heq. injection Heq as H1 H2 H3 H4.
    exists c1, c2, c3, c4. split; [done|].
    by rewrite <- lower_ascii_h, <- lower_ascii_t, <- lower_ascii_m, <- lower_ascii_l.
  - intros (d1 & d2 & d3 & d4 & Heq & H1 & H2 & H3 & H4). simplify_eq.
    apply lower_ascii_h in H1. apply lower_ascii_t in H2.
    apply lower_ascii_m in H3. apply lower_ascii_l in H4.
    by rewrite H1, H2, H3, H4.
Qed.

Lemma decode_failure_handling_witness :
  send_gif (sample_client_decode_raises AssertionError) 3 (sample_args "CAADBAAD")
    = (Some (Raise (FileIdInvalid None)), []) ∧
  send_gif (sample_client_decode_raises (OtherError "IndexError")) 3 (sample_args "")
    = (Some (Raise (OtherError "IndexError")), []).
Proof.
  split.
  - apply (proj1 (decode_failure_handling (sample_client_decode_raises AssertionError)
                    3 (sample_args "CAADBAAD") AssertionError eq_refl eq_refl eq_refl)).
    by left.
  - apply (proj2 (decode_failure_handling
                    (sample_client_decode_raises (OtherError "IndexError"))
                    3 (sample_args "") (OtherError "IndexError")
                    eq_refl eq_refl eq_refl)); discriminate.
Defined.

Lemma upload_failure_propagates_witness :
  send_gif (sample_client_upload_raises ["/tmp/clip.mp4"%string] "/tmp/thumb.jpg") 3
    (sample_args_with_thumb "/tmp/clip.mp4" "/tmp/thumb.jpg")
  = (Some (Raise (OtherError "OSError")), [ SaveFile "/tmp/thumb.jpg" None 0 None [] ]) ∧
  send_gif (sample_client_upload_raises ["/tmp/clip.mp4"%string] "/tmp/clip.mp4") 3
    (sample_args_with_thumb "/tmp/clip.mp4" "/tmp/thumb.jpg")
  = (Some (Raise (OtherError "OSError")),
     [ SaveFile "/tmp/thumb.jpg" None 0 None [];
       SaveFile "/tmp/clip.mp4" None 0 (Some "callback"%string) [ "extra"%string ] ]).
Proof.
  split.
  - exact (proj1 (upload_failure_propagates
                    (sample_client_upload_raises ["/tmp/clip.mp4"%string] "/tmp/thumb.jpg")
                    3 (sample_args_with_thumb "/tmp/clip.mp4" "/tmp/thumb.jpg") eq_refl)
             "/tmp/thumb.jpg"%string (OtherError "OSError") eq_refl eq_refl).
  - exact (proj2 (proj2 (upload_failure_propagates
                    (sample_client_upload_raises ["/tmp/clip.mp4"%string] "/tmp/clip.mp4")
                    3 (sample_args_with_thumb "/tmp/clip.mp4" "/tmp/thumb.jpg") eq_refl))
             "/tmp/thumb.jpg"%string sample_file (OtherError "OSError")
             eq_refl eq_refl eq_refl).
Defined.

Lemma document_fields_are_int64_witness :
  (- 2 ^ 63 ≤ 11 < 2 ^ 63) ∧ (- 2 ^ 63 ≤ 12 < 2 ^ 63).
Proof.
  exact (document_fields_are_int64 (sample_client [] []) (sample_args "short-gif")
           {| doc_id := 11; access_hash := 12 |} None []
           ltac:(vm_compute; reflexivity)).
Defined.

Lemma html_selected_iff_witness :
  is_html (sample_args_full "http://example.com/a.gif" "HtMl") = true ∧
  is_html (sample_args_full "http://example.com/a.gif" " html") = false.
Proof.
  split.
  - apply (proj2 (html_selected_iff (sample_args_full "http://example.com/a.gif" "HtMl"))).
    exists "H"%char, "t"%char, "M"%char, "l"%char.
    repeat split; first [reflexivity | by left | by right].
  - reflexivity.
Defined.

(** ** What every round of the loop does *)

Section Rounds.

Context {Obj : Type} (self : @Client Obj).

Lemma peers_app (h1 h2 : @History Obj) : peers (h1 ++ h2) = peers h1 ++ peers h2.
Proof. apply omap_app. Qed.

Lemma parses_app (h1 h2 : @History Obj) : parses (h1 ++ h2) = parses h1 ++ parses h2.
Proof. apply omap_app. Qed.

Lemma writes_app (h1 h2 : @History Obj) : writes (h1 ++ h2) = writes h1 ++ writes h2.
Proof. apply omap_app. Qed.

Lemma written_cases (a : @Args Obj) (h : History) (rm : option Obj) (ws : list event) :
  written self a h rm ws →
  (reply_markup a = None ∧ rm = None ∧ ws = []) ∨
  (∃ k b, reply_markup a = Some k ∧ markup_write self h k = Ok b ∧
          rm = Some b ∧ ws = [MarkupWrite k]).
Proof.
  unfold written. destruct (reply_markup a) as [k|].
  - intros (b & Hw & -> & ->). right. by exists k, b.
  - intros [-> ->]. by left.
Qed.

(** The calls of one [try] block, projected. *)
Lemma attempt_trace_facts (a : @Args Obj) (m : InputMedia) (h : History)
    (r : result Updates) (evs : list event) :
  attempt_trace self a m h r evs →
  uploads evs = [] ∧
  Forall (λ c, c = chat_id a) (peers evs) ∧
  Forall (λ bc, bc = (is_html a, caption a)) (parses evs) ∧
  Forall (λ k, reply_markup a = Some k) (writes evs) ∧
  (length (sends evs) ≤ length (parses evs))%nat ∧
  (length (parses evs) ≤ length (rnd_ids evs))%nat ∧
  (length (rnd_ids evs) ≤ length (peers evs))%nat ∧
  Forall (λ req, media req = m ∧ reply_to_msg_id req = reply_to_message_id a ∧
                 (reply_markup a = None → reply_markup_written req = None) ∧
                 (∀ k, reply_markup a = Some k → is_Some (reply_markup_written req)))
         (sends evs).
Proof.
  intros Htr.
  destruct Htr as [e Hp | p k e Hp Hk Hw | p rm ws e Hp Hwr Hs | p rm ws st Hp Hwr Hs].
  - simpl. repeat split; repeat constructor.
  - simpl. repeat split; repeat constructor; done.
  - destruct (written_cases _ _ _ _ Hwr) as [(Hk & -> & ->)|(k & b & Hk & Hw & -> & ->)];
      simpl; repeat split; repeat constructor; done.
  - destruct (written_cases _ _ _ _ Hwr) as [(Hk & -> & ->)|(k & b & Hk & Hw & -> & ->)];
      simpl; repeat split; repeat constructor; try done.
    + intros k Hk'. by rewrite Hk in Hk'.
    + intros Hk'. by rewrite Hk in Hk'.
Qed.

(** The rule of the loop for a property of the history alone. *)
Lemma send_loop_history (P : @History Obj → Prop) (a : Args) (m : InputMedia)
    (file : option InputFile) :
  (∀ h r evs, P h → attempt_trace self a m h r evs → P (h ++ evs)) →
  (∀ h f x, file = Some f → P h →
            P (h ++ [SaveFile (gif a) (Some (file_id f)) x None []])) →
  (∀ h msg us cs, P h → P (h ++ [ParseMessages msg us cs])) →
  ∀ fuel h, P h → P (snd (send_loop self fuel a m file h)).
Proof.
  intros Hatt Hup Hpm fuel h HP.
  apply (send_loop_outcome self P (λ _ h', P h') a m file); [done| |done].
  intros h1 r evs HP1 Htr. specialize (Hatt h1 r evs HP1 Htr).
  destruct r as [u|e].
  - destruct (scan_updates (updates u)); [by apply Hpm | done].
  - destruct e; try done.
    destruct file as [f|]; [|done].
    destruct (save_file self (h1 ++ evs) (gif a) (Some (file_id f)) x None []);
      by apply Hup.
Qed.

Lemma resolve_history_calls (a : @Args Obj) :
  peers (snd (resolve self a [])) = [] ∧ parses (snd (resolve self a [])) = [] ∧
  writes (snd (resolve self a [])) = [].
Proof.
  destruct (path_exists self (gif a)) eqn:He.
  - rewrite (resolve_local self a He).
    destruct (thumb a) as [t|].
    + destruct (save_file self [] t None 0 None []); [|done].
      by destruct (save_file self _ (gif a) None 0 (progress a) (progress_args a)).
    + by destruct (save_file self [] (gif a) None 0 (progress a) (progress_args a)).
  - destruct (startswith (gif a) "http") eqn:Hp.
    + unfold resolve. by rewrite He, Hp.
    + by rewrite resolve_third_branch.
Qed.


(** X6: each round starts again from the beginning: it resolves the
    peer with the caller's [chat_id], draws an identifier, and parses
    the caller's caption with the parser selected from [parse_mode],
    before it sends; [write] is called on the caller's reply markup
    only, so never when there is none.  Hence a run makes at least as
    many [resolve_peer] calls as [rnd_id] calls, as [parse] calls, as
    sends. *)
Theorem rounds_repeat_the_calls (fuel : nat) (a : @Args Obj) :
  let h := snd (send_gif self fuel a) in
  Forall (λ c, c = chat_id a) (peers h) ∧
  Forall (λ bc, bc = (is_html a, caption a)) (parses h) ∧
  Forall (λ k, reply_markup a = Some k) (writes h) ∧
  (length (sends h) ≤ length (parses h))%nat ∧
  (length (parses h) ≤ length (rnd_ids h))%nat ∧
  (length (rnd_ids h) ≤ length (peers h))%nat.
Proof.
  set (P := λ h : @History Obj,
         Forall (λ c, c = chat_id a) (peers h) ∧
         Forall (λ bc, bc = (is_html a, caption a)) (parses h) ∧
         Forall (λ k, reply_markup a = Some k) (writes h) ∧
         (length (sends h) ≤ length (parses h))%nat ∧
         (length (parses h) ≤ length (rnd_ids h))%nat ∧
         (length (rnd_ids h) ≤ length (peers h))%nat).
  assert (P (snd (resolve self a []))) as Hstart.
  { destruct (resolve_history self a) as [Hs Hr].
    destruct (resolve_history_calls a) as (Hp & Hq & Hw).
    unfold P. rewrite Hs, Hr, Hp, Hq, Hw. simpl. repeat split; constructor. }
  change (P (snd (send_gif self fuel a))).
  destruct (send_gif_history self fuel a) as [[e ->]|(m & file & ->)]; [done|].
  apply (send_loop_history P); [| | |done].
  - intros h r evs (H1 & H2 & H3 & H4 & H5 & H6) Htr.
    destruct (attempt_trace_facts _ _ _ _ _ Htr)
      as (_ & G1 & G2 & G3 & G4 & G5 & G6 & _).
    unfold P. rewrite peers_app, parses_app, writes_app, sends_app, rnd_ids_app.
    rewrite !length_app. repeat split; try (by apply Forall_app); lia.
  - intros h f x _ HP. unfold P.
    by rewrite peers_app, parses_app, writes_app, sends_app, rnd_ids_app, !app_nil_r.
  - intros h msg us cs HP. unfold P.
    by rewrite peers_app, parses_app, writes_app, sends_app, rnd_ids_app, !app_nil_r.
Qed.

(** X7: a string that names no existing file is never uploaded:
    whatever the server answers and however the call ends, a run for a
    URL or an identifier makes no [save_file] call. *)
Theorem no_upload_without_local_file (fuel : nat) (a : @Args Obj) :
  path_exists self (gif a) = false →
  uploads (snd (send_gif self fuel a)) = [].
Proof.
  intros He.
  assert (∃ r, resolve self a [] = (r, []) ∧
               ∀ m f, r = Ok (m, f) → f = None) as (r & Hr & Hf).
  { destruct (startswith (gif a) "http") eqn:Hp.
    - eexists. split; [unfold resolve; by rewrite He, Hp|].
      intros m f ?; by simplify_eq.
    - eexists. split; [by apply resolve_third_branch|].
      intros m f ?. destruct (resolve_file_id self (gif a)); by simplify_eq. }
  unfold send_gif. rewrite Hr. destruct r as [[m f]|e]; [|done].
  rewrite (Hf m f eq_refl). apply send_loop_no_upload.
Qed.

(** X8: the [save_file] calls of a run are the upload of the
    thumbnail, the upload of the file, and the uploads of single parts
    of the file, each under the identifier of the handle the upload of
    the file returned. *)
Theorem uploads_of_a_run (fuel : nat) (a : @Args Obj) (u : string * option Z * Z) :
  u ∈ uploads (snd (send_gif self fuel a)) →
  (∃ t, thumb a = Some t ∧ u = (t, None, 0)) ∨
  u = (gif a, None, 0) ∨
  (∃ m f h0 x, resolve self a [] = (Ok (m, Some f), h0) ∧
               u = (gif a, Some (file_id f), x)).
Proof.
  set (R := λ u : string * option Z * Z,
         (∃ t, thumb a = Some t ∧ u = (t, None, 0)) ∨
         u = (gif a, None, 0) ∨
         (∃ m f h0 x, resolve self a [] = (Ok (m, Some f), h0) ∧
                      u = (gif a, Some (file_id f), x))).
  assert (R (gif a, None, 0)) as Hgif by (right; by left).
  assert (∀ t, thumb a = Some t → R (t, None, 0)) as Hthumb.
  { intros t Ht. left. by exists t. }
  assert (Forall R (uploads (snd (resolve self a [])))) as Hstart.
  { destruct (path_exists self (gif a)) eqn:He.
    - rewrite (resolve_local self a He).
      destruct (thumb a) as [t|] eqn:Ht.
      + specialize (Hthumb t eq_refl).
        destruct (save_file self [] t None 0 None []); simpl.
        * destruct (save_file self _ (gif a) None 0 (progress a) (progress_args a));
            simpl; repeat (apply List.Forall_cons; [assumption|]); apply List.Forall_nil.
        * repeat (apply List.Forall_cons; [assumption|]); apply List.Forall_nil.
      + destruct (save_file self [] (gif a) None 0 (progress a) (progress_args a));
          simpl; repeat (apply List.Forall_cons; [assumption|]); apply List.Forall_nil.
    - destruct (startswith (gif a) "http") eqn:Hp.
      + unfold resolve. rewrite He, Hp. constructor.
      + rewrite resolve_third_branch by done. constructor. }
  clear Hgif Hthumb.
  assert (Forall R (uploads (snd (send_gif self fuel a)))) as Hall.
  { unfold send_gif in *. destruct (resolve self a []) as [[[m file]|e] h0] eqn:Hr;
      [|done].
    apply (send_loop_history (λ h, Forall R (uploads h))); [| | |done].
    - intros h r evs HP Htr. rewrite uploads_app.
      destruct (attempt_trace_facts _ _ _ _ _ Htr) as (-> & _).
      by rewrite app_nil_r.
    - intros h f x Hfile HP. rewrite uploads_app. apply Forall_app. split; [done|].
      simpl. apply List.Forall_cons; [|apply List.Forall_nil]. unfold R. right. right.
      exists m, f, h0, x. by rewrite <- Hfile.
    - intros h msg us cs HP. by rewrite uploads_app, app_nil_r. }
  intros Hin. rewrite Forall_forall in Hall. by apply Hall.
Qed.

End Rounds.

(** ** How a run ends *)

Section Endings.

Context {Obj : Type} (self : @Client Obj).

(** X9: [send_gif] returns a value in one way only: the last send
    succeeded, its response has a new-message update, and the value is
    what [utils.parse_messages] answered for the message of the first
    such update, with the users and chats of that response keyed by
    their ids.  That call is the last one of the run and directly
    follows the send. *)
Theorem value_comes_from_parse_messages (fuel : nat) (a : @Args Obj) (v : Obj)
    (h : History) :
  send_gif self fuel a = (Some (Ok v), h) →
  ∃ h1 req r msg,
    h = h1 ++ [ Send req; ParseMessages msg (by_id (users r)) (by_id (chats r)) ] ∧
    send self h1 req = Ok r ∧
    scan_updates (updates r) = Some msg ∧
    parse_messages self (h1 ++ [Send req]) msg (by_id (users r)) (by_id (chats r))
      = Ok v.
Proof.
  set (Q := λ (o : option (result Obj)) (h : @History Obj),
         ∀ v, o = Some (Ok v) →
           ∃ h1 req r msg,
             h = h1 ++ [ Send req;
                         ParseMessages msg (by_id (users r)) (by_id (chats r)) ] ∧
             send self h1 req = Ok r ∧
             scan_updates (updates r) = Some msg ∧
             parse_messages self (h1 ++ [Send req]) msg
               (by_id (users r)) (by_id (chats r)) = Ok v).
  intros Hrun. unfold send_gif in Hrun.
  destruct (resolve self a []) as [[[m file]|e] h0]; [|done].
  enough (Q (fst (send_loop self fuel a m file h0))
            (snd (send_loop self fuel a m file h0))) as HQ.
  { rewrite Hrun in HQ. exact (HQ v eq_refl). }
  apply (send_loop_outcome self (λ _, True) Q a m file); [done| |done].
  clear Hrun. intros h1 r evs _ Htr.
  destruct r as [u|e].
  - destruct (scan_updates (updates u)) as [msg|] eqn:Hscan; [|done].
    intros v' Hv.
    inversion Htr as [| | |p rm ws st Hp Hwr Hs Hsend Hevs]. subst evs.
    exists (h1 ++ drawn self a h1 ++ ws ++ [StyleParse (is_html a) (caption a)]),
           (request_of self a m h1 p rm st), u, msg.
    split; [by rewrite <- !app_assoc|]. split; [done|]. split; [done|].
    simplify_eq. rewrite <- Hv. f_equal. by rewrite <- !app_assoc.
  - destruct e; try (intros v' Hv; discriminate).
    destruct file as [f|]; [|intros v' Hv; discriminate].
    destruct (save_file self (h1 ++ evs) (gif a) (Some (file_id f)) x None []);
      [done | intros v' Hv; discriminate].
Qed.

Lemma resolve_history_end (a : @Args Obj) :
  snd (resolve self a []) = [] ∨
  ∃ h' p i k pr pa, snd (resolve self a []) = h' ++ [SaveFile p i k pr pa].
Proof.
  destruct (path_exists self (gif a)) eqn:He.
  - right. rewrite (resolve_local self a He).
    destruct (thumb a) as [t|].
    + destruct (save_file self [] t None 0 None []); simpl.
      * destruct (save_file self _ (gif a) None 0 (progress a) (progress_args a));
          by eexists [_], _, _, _, _, _.
      * by eexists [], _, _, _, _, _.
    + destruct (save_file self [] (gif a) None 0 (progress a) (progress_args a));
        by eexists [], _, _, _, _, _.
  - left. destruct (startswith (gif a) "http") eqn:Hp.
    + unfold resolve. by rewrite He, Hp.
    + by rewrite resolve_third_branch.
Qed.

(** X10: a [FilePartMissing] raised inside the [try] block, by the send
    or by any other call of the block, never reaches the caller.  When
    [send_gif] does end with [FilePartMissing], it was raised by
    [save_file] or by [utils.parse_messages], the last call of the run,
    or by [utils.decode] before any call. *)
Theorem missing_part_never_from_try_block (fuel : nat) (a : @Args Obj) (x : Z)
    (h : History) :
  send_gif self fuel a = (Some (Raise (FilePartMissing x)), h) →
  h = [] ∨
  (∃ h' p i k pr pa, h = h' ++ [SaveFile p i k pr pa]) ∨
  (∃ h' msg us cs, h = h' ++ [ParseMessages msg us cs]).
Proof.
  set (Q := λ (o : option (result Obj)) (h : @History Obj),
         ∀ x, o = Some (Raise (FilePartMissing x)) →
           h = [] ∨
           (∃ h' p i k pr pa, h = h' ++ [SaveFile p i k pr pa]) ∨
           (∃ h' msg us cs, h = h' ++ [ParseMessages msg us cs])).
  intros Hrun. unfold send_gif in Hrun.
  destruct (resolve self a []) as [[[m file]|e] h0] eqn:Hr.
  - enough (Q (fst (send_loop self fuel a m file h0))
              (snd (send_loop self fuel a m file h0))) as HQ.
    { rewrite Hrun in HQ. exact (HQ x eq_refl). }
    apply (send_loop_outcome self (λ _, True) Q a m file); [done| |done].
    clear Hrun. intros h1 r evs _ Htr.
    destruct r as [u|e].
    + destruct (scan_updates (updates u)) as [msg|]; [|done].
      intros x' _. right. right. by eexists _, _, _, _.
    + destruct e; try (intros x' Hx; discriminate).
      destruct file as [f|]; [|intros x' Hx; discriminate].
      destruct (save_file self (h1 ++ evs) (gif a) (Some (file_id f)) x0 None []);
        [done|].
      intros x' _. right. left. by eexists _, _, _, _, _, _.
  - simplify_eq. pose proof (resolve_history_end a) as Hend. rewrite Hr in Hend.
    simpl in Hend. destruct Hend as [->|Hend]; [by left | by right; left].
Qed.



End Endings.

(** ** Retrying, then succeeding *)

Section RetryThenSuccess.

Context {Obj : Type} (self : @Client Obj) (a : @Args Obj).
Variable script : nat → result (@Updates Obj).

Hypothesis peer_ok : ∀ h, ∃ p, resolve_peer self h (chat_id a) = Ok p.
Hypothesis markup_ok : ∀ h k, ∃ b, markup_write self h k = Ok b.
Hypothesis style_ok : ∀ h, ∃ st, style_parse self h (is_html a) (caption a) = Ok st.
Hypothesis send_scripted : ∀ h req, send self h req = script (length (sends h)).
Hypothesis reupload_ok :
  ∀ h i x, ∃ f', save_file self h (gif a) (Some i) x None [] = Ok f'.

(** X12: with an upload handle, when the server reports the missing
    parts [xs] one after the other and then accepts the send with a
    response that has a new message, the run uploads exactly the parts
    [xs] again, in that order and under the handle's identifier, makes
    one send more than there were failures, and returns what
    [utils.parse_messages] answers for that message. *)
Theorem retries_then_returns_the_message (m : InputMedia) (f : InputFile) (h : History)
    (xs : list Z) (r : Updates) (msg : Obj) (fuel : nat) :
  (∀ k x, xs !! k = Some x →
          script (length (sends h) + k) = Raise (FilePartMissing x)) →
  script (length (sends h) + length xs) = Ok r →
  scan_updates (updates r) = Some msg →
  ∃ h', send_loop self (length xs + S fuel) a m (Some f) h =
          (Some (parse_messages self h' msg (by_id (users r)) (by_id (chats r))),
           h' ++ [ParseMessages msg (by_id (users r)) (by_id (chats r))]) ∧
        uploads h' = uploads h ++ ((λ x, (gif a, Some (file_id f), x)) <$> xs) ∧
        length (sends h') = (length (sends h) + length xs + 1)%nat.
Proof.
  intros Hxs Hok Hscan.
  destruct (retry_rounds self a script peer_ok markup_ok style_ok send_scripted
              reupload_ok m f xs (S fuel) h Hxs) as (h1 & Hloop & Hup & Hlen).
  destruct (attempt_scripted self a script peer_ok markup_ok style_ok send_scripted
              m h1) as (evs & req & Heq & Hsd & Hu).
  rewrite Hlen, Hok in Heq.
  exists (h1 ++ evs ++ [Send req]). split; [|split].
  - rewrite Hloop. simpl. by rewrite Heq, Hscan.
  - rewrite !uploads_app, Hu, Hup. simpl. by rewrite app_nil_r.
  - rewrite !sends_app, Hsd, !length_app, Hlen. simpl. lia.
Qed.

End RetryThenSuccess.

(** ** The users and chats of a response, keyed by id *)

Section ById.

Context {Obj : Type}.

Lemma by_id_snoc (l : list (@Entity Obj)) (e : Entity) :
  by_id (l ++ [e]) = <[ent_id e := e]> (by_id l).
Proof. unfold by_id. by rewrite foldl_app. Qed.

(** X13: the dictionary built from a list of users or chats maps an id
    to the last entity of the list that has this id, and has no entry
    for an id that no entity of the list has. *)
Theorem by_id_lookup (l : list (@Entity Obj)) (k : Z) :
  by_id l !! k = last (filter (λ e, ent_id e = k) l).
Proof.
  induction l as [|e l IH] using rev_ind; [done|].
  rewrite by_id_snoc, filter_app, lookup_insert.
  destruct (decide (ent_id e = k)) as [Heq|Hne].
  - rewrite filter_cons_True by done. rewrite filter_nil, last_snoc. done.
  - rewrite filter_cons_False by done. rewrite filter_nil, app_nil_r. exact IH.
Qed.

End ById.

(** ** Packing and unpacking an identifier *)

Lemma byte_of_small (x : Z) :
  0 ≤ x < 256 → ∃ b, Byte.of_N (Z.to_N x) = Some b ∧ Z.of_N (Byte.to_N b) = x.
Proof.
  intros Hx. pose proof (Byte.to_of_N_option_map (Z.to_N x)) as H.
  destruct (N.leb_spec (Z.to_N x) 255) as [_|Hgt]; [|lia].
  destruct (Byte.of_N (Z.to_N x)) as [b|]; [|done].
  exists b. split; [done|]. simpl in H. injection H as ->. lia.
Qed.

Lemma le_bytes_length (n : nat) (u : Z) : length (Struct.le_bytes n u) = n.
Proof.
  revert u. induction n as [|n IH]; intros u; simpl; [done|].
  destruct (byte_of_small (u mod 256)) as (b & -> & _); [apply Z.mod_pos_bound; lia|].
  simpl. by rewrite IH.
Qed.

Lemma le_unsigned_le_bytes (n : nat) (u : Z) :
  Struct.le_unsigned (Struct.le_bytes n u) = u mod 2 ^ (8 * Z.of_nat n).
Proof.
  revert u. induction n as [|n IH]; intros u; simpl Struct.le_bytes.
  - simpl. by rewrite Z.mod_1_r.
  - destruct (byte_of_small (u mod 256)) as (b & -> & Hb); [apply Z.mod_pos_bound; lia|].
    simpl Struct.le_unsigned. fold (Struct.le_unsigned (Struct.le_bytes n (u / 256))).
    rewrite Hb, IH.
    replace (8 * Z.of_nat (S n)) with (8 + 8 * Z.of_nat n) by lia.
    rewrite Z.pow_add_r by lia. change (2 ^ 8) with 256.
    rewrite Z.rem_mul_r; [done|lia|]. apply Z.pow_pos_nonneg; lia.
Qed.

Lemma le_signed_pack1 (c : Struct.code) (z : Z) :
  fits c z → Struct.le_signed (Struct.pack1 c z) = z.
Proof.
  unfold fits, Struct.pack1, Struct.le_signed. intros Hz.
  rewrite le_unsigned_le_bytes, le_bytes_length.
  set (w := 8 * Z.of_nat (Struct.size c)) in *.
  assert (2 ^ w = 2 * 2 ^ (w - 1)) as Hw.
  { replace w with (1 + (w - 1)) at 1 by (destruct c; subst w; simpl; lia).
    rewrite Z.pow_add_r; [done|lia|destruct c; subst w; simpl; lia]. }
  assert (0 < 2 ^ (w - 1)) as Hpos.
  { apply Z.pow_pos_nonneg; [lia|destruct c; subst w; simpl; lia]. }
  rewrite Z.mod_mod by lia.
  destruct (Z.le_gt_cases 0 z) as [Hnn|Hneg].
  - rewrite Z.mod_small by lia.
    destruct (Z.ltb_spec z (2 ^ (w - 1))); lia.
  - assert (z mod 2 ^ w = z + 2 ^ w) as ->.
    { symmetry. apply (Z.mod_unique_pos _ _ (-1)); lia. }
    destruct (Z.ltb_spec (z + 2 ^ w) (2 ^ (w - 1))); lia.
Qed.

Lemma pack1_length (c : Struct.code) (z : Z) : length (Struct.pack1 c z) = Struct.size c.
Proof. apply le_bytes_length. Qed.

Lemma fields_pack (cs : list Struct.code) (zs : list Z) :
  Forall2 fits cs zs →
  Struct.fields cs (Struct.pack cs zs) = zs ∧
  length (Struct.pack cs zs) = Struct.calcsize cs.
Proof.
  induction 1 as [|c z cs zs Hz _ [IHf IHl]]; simpl; [done|].
  rewrite take_app_length', drop_app_length' by (by rewrite pack1_length).
  rewrite le_signed_pack1, IHf, length_app, pack1_length, IHl by done. done.
Qed.

(** [struct.unpack] gives back what was packed, for values that fit
    their codes. *)
Lemma unpack_pack (fmt : string) (cs : list Struct.code) (zs : list Z) :
  Struct.parse_fmt fmt = Some cs → Forall2 fits cs zs →
  Struct.unpack fmt (Struct.pack cs zs) = Ok zs.
Proof.
  intros Hfmt Hfit. destruct (fields_pack cs zs Hfit) as [Hf Hl].
  unfold Struct.unpack. rewrite Hfmt, decide_True by done. by rewrite Hf.
Qed.

Section RoundTrip.

Context {Obj : Type} (self : @Client Obj).

(** X14: packing and resolving are inverse: when the decoded bytes are
    the "<iiqq" packing of (10, dc_id, id, access_hash), or the
    "<iiqqqqi" packing of these four and three more fields, each value
    within the range of its code, the resolution gives
    [InputMediaDocument] with exactly that id and access hash. *)
Theorem packed_identifier_resolves (a : @Args Obj) (dc i k : Z) :
  path_exists self (gif a) = false → startswith (gif a) "http" = false →
  fits Struct.int32 dc → fits Struct.int64 i → fits Struct.int64 k →
  (decode self (gif a) = Ok (Struct.pack short_codes [10; dc; i; k]) →
   resolve self a [] =
     (Ok (InputMediaDocument {| doc_id := i; access_hash := k |}, None), [])) ∧
  (∀ v s l,
     fits Struct.int64 v → fits Struct.int64 s → fits Struct.int32 l →
     decode self (gif a) = Ok (Struct.pack long_codes [10; dc; i; k; v; s; l]) →
     resolve self a [] =
       (Ok (InputMediaDocument {| doc_id := i; access_hash := k |}, None), [])).
Proof.
  intros He Hp Hdc Hi Hk.
  assert (fits Struct.int32 10) as H10 by (unfold fits; simpl; lia).
  assert (∀ rest, unpack_file_id self (gif a) = Ok (10 :: dc :: i :: k :: rest) →
            resolve self a [] =
              (Ok (InputMediaDocument {| doc_id := i; access_hash := k |}, None), []))
    as Hres.
  { intros rest Hu. rewrite resolve_third_branch by done.
    unfold resolve_file_id. by rewrite Hu. }
  split.
  - intros Hd. apply (Hres []).
    assert (Forall2 fits short_codes [10; dc; i; k]) as Hfit
      by (repeat (apply List.Forall2_cons; [assumption|]); apply List.Forall2_nil).
    destruct (fields_pack _ _ Hfit) as [_ Hl].
    unfold unpack_file_id. rewrite Hd.
    rewrite decide_False by (rewrite Hl; simpl; lia).
    by rewrite (unpack_pack "<iiqq" short_codes).
  - intros v s l Hv Hs Hl' Hd. apply (Hres [v; s; l]).
    assert (Forall2 fits long_codes [10; dc; i; k; v; s; l]) as Hfit
      by (repeat (apply List.Forall2_cons; [assumption|]); apply List.Forall2_nil).
    destruct (fields_pack _ _ Hfit) as [_ Hl].
    unfold unpack_file_id. rewrite Hd.
    rewrite decide_True by (rewrite Hl; simpl; lia).
    by rewrite (unpack_pack "<iiqqqqi" long_codes).
Qed.

End RoundTrip.

(** ** More sample runs *)


(** The file "/tmp/clip.mp4" exists, but the call is for a URL, and
    the server reports a missing part: nothing is uploaded. *)
Lemma no_upload_without_local_file_witness :
  uploads (snd (send_gif (sample_client ["/tmp/clip.mp4"%string]
                            [Raise (FilePartMissing 3); Ok sample_sent])
                  3 (sample_args "http://example.com/a.gif"))) = [].
Proof.
  exact (no_upload_without_local_file
           (sample_client ["/tmp/clip.mp4"%string]
              [Raise (FilePartMissing 3); Ok sample_sent])
           3 (sample_args "http://example.com/a.gif") eq_refl).
Defined.

Lemma uploads_of_a_run_witness :
  uploads (snd (send_gif (sample_client ["/tmp/clip.mp4"%string]
                            [Raise (FilePartMissing 3); Ok sample_sent])
                  3 (sample_args_with_thumb "/tmp/clip.mp4" "/tmp/thumb.jpg")))
    = [ ("/tmp/thumb.jpg"%string, None, 0); ("/tmp/clip.mp4"%string, None, 0);
        ("/tmp/clip.mp4"%string, Some 77, 3) ] ∧
  ∀ u,
    u ∈ uploads (snd (send_gif (sample_client ["/tmp/clip.mp4"%string]
                                  [Raise (FilePartMissing 3); Ok sample_sent])
                        3 (sample_args_with_thumb "/tmp/clip.mp4" "/tmp/thumb.jpg"))) →
    u = ("/tmp/thumb.jpg"%string, None, 0) ∨ u = ("/tmp/clip.mp4"%string, None, 0) ∨
    ∃ x, u = ("/tmp/clip.mp4"%string, Some 77, x).
Proof.
  split; [reflexivity|]. intros u Hin.
  destruct (uploads_of_a_run (sample_client ["/tmp/clip.mp4"%string]
                                [Raise (FilePartMissing 3); Ok sample_sent])
              3 (sample_args_with_thumb "/tmp/clip.mp4" "/tmp/thumb.jpg") u Hin)
    as [(t & Ht & ->)|[->|(m & f & h0 & x & Hr & ->)]].
  - left. injection Ht as <-. reflexivity.
  - right. left. reflexivity.
  - right. right. exists x. injection Hr as _ <- _. reflexivity.
Defined.

Lemma value_comes_from_parse_messages_witness :
  ∃ h1 req r msg,
    snd (send_gif (sample_client [] [Ok sample_no_message; Ok sample_sent]) 2
           (sample_args "http://example.com/a.gif"))
      = h1 ++ [ Send req; ParseMessages msg (by_id (users r)) (by_id (chats r)) ] ∧
    send (sample_client [] [Ok sample_no_message; Ok sample_sent]) h1 req = Ok r ∧
    scan_updates (updates r) = Some msg ∧
    parse_messages (sample_client [] [Ok sample_no_message; Ok sample_sent])
      (h1 ++ [Send req]) msg (by_id (users r)) (by_id (chats r)) = Ok "m"%string.
Proof.
  exact (value_comes_from_parse_messages
           (sample_client [] [Ok sample_no_message; Ok sample_sent]) 2
           (sample_args "http://example.com/a.gif") "m"%string
           (snd (send_gif (sample_client [] [Ok sample_no_message; Ok sample_sent]) 2
                   (sample_args "http://example.com/a.gif")))
           eq_refl).
Defined.

(** The upload of the single part itself fails with
    [FilePartMissing(9)]: this one reaches the caller, and the last
    call of the run is that [save_file]. *)
Lemma missing_part_never_from_try_block_witness :
  fst (send_gif (sample_client_part_raises ["/tmp/clip.mp4"%string] (FilePartMissing 9))
         3 (sample_args "/tmp/clip.mp4"))
    = Some (Raise (FilePartMissing 9)) ∧
  last (snd (send_gif (sample_client_part_raises ["/tmp/clip.mp4"%string]
                         (FilePartMissing 9))
               3 (sample_args "/tmp/clip.mp4")))
    = Some (SaveFile "/tmp/clip.mp4" (Some 77) 3 None []).
Proof.
  set (run := send_gif (sample_client_part_raises ["/tmp/clip.mp4"%string]
                          (FilePartMissing 9))
                3 (sample_args "/tmp/clip.mp4")).
  assert (last (snd run) = Some (SaveFile "/tmp/clip.mp4" (Some 77) 3 None []))
    as Hlast by (vm_compute; reflexivity).
  destruct (missing_part_never_from_try_block
              (sample_client_part_raises ["/tmp/clip.mp4"%string] (FilePartMissing 9))
              3 (sample_args "/tmp/clip.mp4") 9 (snd run) eq_refl)
    as [Hnil|[(h' & p & i & k & pr & pa & Hh)|(h' & msg & us & cs & Hh)]].
  - rewrite Hnil in Hlast. discriminate Hlast.
  - split; [reflexivity | exact Hlast].
  - exfalso. rewrite Hh, last_snoc in Hlast. discriminate Hlast.
Defined.


(** The file exists, the first send fails with [FilePartMissing(3)]
    and the second succeeds: one part is uploaded again, two sends are
    made, and the message is returned. *)
Lemma retries_then_returns_the_message_witness :
  fst (send_gif (sample_client ["/tmp/clip.mp4"%string]
                   [Raise (FilePartMissing 3); Ok sample_sent])
         2 (sample_args "/tmp/clip.mp4")) = Some (Ok "m"%string) ∧
  uploads (snd (send_gif (sample_client ["/tmp/clip.mp4"%string]
                            [Raise (FilePartMissing 3); Ok sample_sent])
                  2 (sample_args "/tmp/clip.mp4")))
    = [ ("/tmp/clip.mp4"%string, None, 0); ("/tmp/clip.mp4"%string, Some 77, 3) ] ∧
  length (sends (snd (send_gif (sample_client ["/tmp/clip.mp4"%string]
                                  [Raise (FilePartMissing 3); Ok sample_sent])
                        2 (sample_args "/tmp/clip.mp4")))) = 2%nat.
Proof.
  set (l := [Raise (FilePartMissing 3); Ok sample_sent]
            : list (result (@Updates string))).
  set (c := sample_client ["/tmp/clip.mp4"%string] l).
  set (a := sample_args "/tmp/clip.mp4").
  pose (m := InputMediaUploadedDocument "video/mp4" sample_file None
               [ DocumentAttributeVideo true 5 100 100;
                 DocumentAttributeFilename "clip.mp4";
                 DocumentAttributeAnimated ]).
  pose (h := [ SaveFile "/tmp/clip.mp4" None 0 None [] ] : @History string).
  destruct (retries_then_returns_the_message c a (sample_script l)
              (sample_peer_ok _ l a) (sample_markup_ok _ l) (sample_style_ok _ l a)
              (λ _ _, eq_refl) (sample_reupload_ok _ l a)
              m sample_file h [3] sample_sent "m"%string 0%nat)
    as (h' & Heq & Hu & Hl).
  { intros [|k] x Hk; simpl in Hk; [|discriminate Hk].
    injection Hk as <-. reflexivity. }
  { reflexivity. }
  { reflexivity. }
  change (send_gif c 2 a) with (send_loop c (length [3] + 1) a m (Some sample_file) h).
  rewrite Heq. simpl. split; [reflexivity|]. split.
  - rewrite uploads_app, Hu. reflexivity.
  - rewrite sends_app, length_app, Hl. reflexivity.
Defined.

Example by_id_keeps_the_last :
  by_id [ {| ent_id := 1; ent_value := "old"%string |};
          {| ent_id := 2; ent_value := "b"%string |};
          {| ent_id := 1; ent_value := "new"%string |} ] !! 1
    = Some {| ent_id := 1; ent_value := "new"%string |} ∧
  by_id [ {| ent_id := 1; ent_value := "old"%string |} ] !! 5 = None.
Proof. split; by vm_compute. Qed.

Lemma packed_identifier_resolves_witness :
  resolve (sample_client [] []) (sample_args "short-gif") [] =
    (Ok (InputMediaDocument {| doc_id := 11; access_hash := 12 |}, None), []) ∧
  resolve (sample_client [] []) (sample_args "long-gif") [] =
    (Ok (InputMediaDocument {| doc_id := 1; access_hash := 2 |}, None), []).
Proof.
  assert (∀ c z, (- 2 ^ 31 ≤ z < 2 ^ 31) → fits c z) as Hfit.
  { intros [] z Hz; unfold fits; simpl; lia. }
  split.
  - apply (proj1 (packed_identifier_resolves (sample_client [] [])
                    (sample_args "short-gif") 2 11 12 eq_refl eq_refl
                    ltac:(apply Hfit; lia) ltac:(apply Hfit; lia)
                    ltac:(apply Hfit; lia))).
    reflexivity.
  - apply (proj2 (packed_identifier_resolves (sample_client [] [])
                    (sample_args "long-gif") 2 1 2 eq_refl eq_refl
                    ltac:(apply Hfit; lia) ltac:(apply Hfit; lia)
                    ltac:(apply Hfit; lia)) 3 4 0);
      first [reflexivity | apply Hfit; lia].
Defined.
